(** * MoviesAPI: an Extract / Transform / Load pipeline over TMDB, and its report

    A shallow embedding of [main.py].  The script has four phases, kept here
    as four modules:

    - [Fetcher]: [fetch_top_movies], [fetch_movie_details] and the extract
      loop of the first [__main__] block.  The network is an oracle that is
      threaded through explicitly together with the log of issued requests.
    - [Normalizer]: the three transform passes (genres, people, movies).
      Python dictionaries whose iteration order reaches a DataFrame are
      insertion-ordered association lists; [directors_map], which is only
      looked up, is a [gmap].
    - [Loader]: [DataFrame.to_sql(..., if_exists='replace')] on a store that
      maps table names to tables.
    - [Reporter]: the fifth query and the try / except / finally batch.
    - [Queries]: the first three report queries.
    - [Pipeline]: phases 1 to 3 run in sequence.

    Definitions come first, the theorems about them follow. *)

From Stdlib Require QArith.Qcanon.
From stdpp Require Import gmap strings list fin_maps sorting.

Local Open Scope Z_scope.

(** ** Python values shared by the phases *)

(** A JSON number that the script only carries around ('vote_average'). *)
Definition rating : Type := Qcanon.Qc.

(** The JSON objects of the TMDB payloads, restricted to the keys the script
    reads.  Keys read with [d['k']] are mandatory fields; keys read with
    [d.get('k')] are optional ones. *)

Record genre_obj := GenreObj { g_id : Z; g_name : string }.

Record cast_obj := CastObj { a_id : Z; a_name : string; a_character : string }.

Record crew_obj := CrewObj { m_job : string; m_id : Z; m_name : string }.

(** An entry of the 'results' array of a listing page; it is read with
    [.get('id')] and [.get('title')] only. *)
Record summary := Summary { s_id : option Z; s_title : option string }.

(** The detail payload.  Its 'id' is part of every 200 answer of the
    endpoint, so it is a plain field here; the other keys may be absent. *)
Record details_obj := DetailsObj {
  d_id : Z;
  d_title : option string;
  d_overview : option string;
  d_release_date : option string;
  d_vote_average : option rating;
  d_genres : option (list genre_obj)
}.

Record credits_obj := CreditsObj {
  c_id : option Z;
  c_cast : option (list cast_obj);
  c_crew : option (list crew_obj)
}.

(** [combined_data], one row of [raw_data_df]. *)
Record raw_movie := RawMovie {
  tmdb_id : Z;
  title : option string;
  overview : option string;
  release_date : option string;
  vote_average : option rating;
  genres : list genre_obj;
  cast : list cast_obj;
  crew : list crew_obj
}.

(** Python truthiness of [movie_summary.get('id')]: [None] and [0] are
    falsy. *)
Definition truthy_id (o : option Z) : bool :=
  match o with
  | Some z => negb (z =? 0)
  | None => false
  end.

(** Truthiness of a dict: it has at least one key. *)
Definition truthy_details (d : details_obj) : bool := true.

Definition truthy_credits (c : credits_obj) : bool :=
  match c_id c, c_cast c, c_crew c with
  | None, None, None => false
  | _, _, _ => true
  end.

(** ** Fetcher *)

Module Fetcher.

Record response (A : Type) := Response { status_code : Z; json : A }.
Arguments Response {A} _ _.
Arguments status_code {A} _.
Arguments json {A} _.

Inductive request :=
| ReqTopRated (page : Z)
| ReqDetails (movie_id : Z)
| ReqCredits (movie_id : Z).

(** The remote API.  An answer may depend on the endpoint argument and on
    how many requests were issued before it. *)
Record network := Network {
  get_top_rated : nat → Z → response (option (list summary));
  get_details : nat → Z → response details_obj;
  get_credits : nat → Z → response credits_obj
}.

Definition log := list request.

(** The [for page in range(1, 4)] loop, with its early [return []]. *)
Fixpoint fetch_pages (net : network) (pages : list Z)
    (top_movies : list summary) (lg : log) : list summary * log :=
  match pages with
  | [] => (take 50 top_movies, lg)
  | page :: rest =>
      let response := get_top_rated net (length lg) page in
      let lg' := lg ++ [ReqTopRated page] in
      if status_code response =? 200
      then fetch_pages net rest
             (top_movies ++ default [] (json response)) lg'
      else ([], lg')
  end.

Definition fetch_top_movies (net : network) (lg : log)
    : list summary * log :=
  fetch_pages net [1; 2; 3] [] lg.

(** Both requests are issued before either status is looked at. *)
Definition fetch_movie_details (net : network) (movie_id : Z) (lg : log)
    : (option details_obj * option credits_obj) * log :=
  let details_response := get_details net (length lg) movie_id in
  let lg1 := lg ++ [ReqDetails movie_id] in
  let credits_response := get_credits net (length lg1) movie_id in
  let lg2 := lg1 ++ [ReqCredits movie_id] in
  if (status_code details_response =? 200)
     && (status_code credits_response =? 200)
  then ((Some (json details_response), Some (json credits_response)), lg2)
  else ((None, None), lg2).

Definition combine_data (details : details_obj) (credits : credits_obj)
    : raw_movie :=
  {| tmdb_id := d_id details;
     title := d_title details;
     overview := d_overview details;
     release_date := d_release_date details;
     vote_average := d_vote_average details;
     genres := default [] (d_genres details);
     cast := default [] (c_cast credits);
     crew := default [] (c_crew credits) |}.

(** One iteration of the extract loop.  The state is [all_movies_data]
    and the request log. *)
Definition extract_step (net : network) (st : list raw_movie * log)
    (movie_summary : summary) : list raw_movie * log :=
  let '(all_movies_data, lg) := st in
  let movie_id := s_id movie_summary in
  if truthy_id movie_id then
    match movie_id with
    | Some mid =>
        let '((details, credits), lg') := fetch_movie_details net mid lg in
        match details, credits with
        | Some d, Some c =>
            if truthy_details d && truthy_credits c
            then (all_movies_data ++ [combine_data d c], lg')
            else (all_movies_data, lg')
        | _, _ => (all_movies_data, lg')
        end
    | None => (all_movies_data, lg)
    end
  else (all_movies_data, lg).

Definition extract_loop (net : network) (st : list raw_movie * log)
    (top_movies_list : list summary) : list raw_movie * log :=
  foldl (extract_step net) st top_movies_list.

(** Phase 1 of the script: the listing, then one detail fetch per entry. *)
Definition extract (net : network) : list raw_movie * log :=
  let '(top_movies_list, lg) := fetch_top_movies net [] in
  match top_movies_list with
  | [] => ([], lg)
  | _ :: _ => extract_loop net ([], lg) top_movies_list
  end.

End Fetcher.

(** ** Normalizer *)

Module Normalizer.

(** [all_genres] and [all_people]: dictionaries from an id to a name, in
    insertion order (the order of [list(d.items())]). *)
Definition py_dict : Type := list (Z * string).

(** [k in d] *)
Definition dict_contains (k : Z) (d : py_dict) : bool :=
  bool_decide (k ∈ d.*1).

(** [if k not in d: d[k] = v] *)
Definition dict_add_if_absent (k : Z) (v : string) (d : py_dict) : py_dict :=
  if dict_contains k d then d else d ++ [(k, v)].

Record movie_genre_row := MovieGenreRow {
  mg_movie_id : Z;
  mg_genre_id : Z
}.

Record movie_cast_row := MovieCastRow {
  mc_movie_id : Z;
  mc_person_id : Z;
  mc_character_name : string
}.

(** *** 1. Genres *)

(** Body of [for genre in row['genres']]. *)
Definition genres_step (movie_id : Z)
    (st : py_dict * list movie_genre_row) (genre : genre_obj)
    : py_dict * list movie_genre_row :=
  let '(all_genres, movie_genres_list) := st in
  let genre_id := g_id genre in
  (dict_add_if_absent genre_id (g_name genre) all_genres,
   movie_genres_list ++ [MovieGenreRow movie_id genre_id]).

(** Body of [for index, row in raw_data_df.iterrows()]. *)
Definition genres_row (st : py_dict * list movie_genre_row) (row : raw_movie)
    : py_dict * list movie_genre_row :=
  foldl (genres_step (tmdb_id row)) st (genres row).

Definition genres_pass (raw_data_df : list raw_movie)
    : py_dict * list movie_genre_row :=
  foldl genres_row ([], []) raw_data_df.

(** *** 2. People *)

Record people_state := PeopleState {
  all_people : py_dict;
  movie_cast_list : list movie_cast_row;
  directors_map : gmap Z Z
}.

(** [for member in row['crew']], left by [break] at the first director. *)
Fixpoint scan_crew (movie_id : Z) (crew : list crew_obj) (st : people_state)
    : people_state :=
  match crew with
  | [] => st
  | member :: rest =>
      if String.eqb (m_job member) "Director" then
        let director_id := m_id member in
        {| all_people :=
             dict_add_if_absent director_id (m_name member) (all_people st);
           movie_cast_list := movie_cast_list st;
           directors_map := <[movie_id := director_id]> (directors_map st) |}
      else scan_crew movie_id rest st
  end.

(** Body of [for actor in row['cast'][:10]]. *)
Definition cast_step (movie_id : Z) (st : people_state) (actor : cast_obj)
    : people_state :=
  let actor_id := a_id actor in
  {| all_people := dict_add_if_absent actor_id (a_name actor) (all_people st);
     movie_cast_list :=
       movie_cast_list st
         ++ [MovieCastRow movie_id actor_id (a_character actor)];
     directors_map := directors_map st |}.

Definition people_row (st : people_state) (row : raw_movie) : people_state :=
  let movie_id := tmdb_id row in
  foldl (cast_step movie_id) (scan_crew movie_id (crew row) st)
        (take 10 (cast row)).

Definition people_init : people_state :=
  {| all_people := []; movie_cast_list := []; directors_map := ∅ |}.

Definition people_pass (raw_data_df : list raw_movie) : people_state :=
  foldl people_row people_init raw_data_df.

(** *** 3. Movies *)

Record date := Date { year : Z; month : Z; day : Z }.

(** A row of [movies_df].  [None] stands for NaT in [mv_release_date] and
    for NaN in [mv_director_id]. *)
Record movie_row := MovieRow {
  mv_id : Z;
  mv_title : option string;
  mv_overview : option string;
  mv_release_date : option date;
  mv_vote_average : option rating;
  mv_director_id : option Z
}.

Inductive py_error :=
| KeyError
| ParserError
| IntCastingNaNError.

Record tables := Tables {
  movies_df : list movie_row;
  genres_df : list (Z * string);
  people_df : list (Z * string);
  movie_genres_df : list movie_genre_row;
  movie_cast_df : list movie_cast_row
}.

Section Transform.

(** What [pd.to_datetime] does with one string: a date, NaT, or an
    exception.  It is pandas' code, not the script's. *)
Variable parse_datetime : string → py_error + option date.

(** A missing value becomes NaT. *)
Definition to_datetime (o : option string) : py_error + option date :=
  match o with
  | None => inr None
  | Some s => parse_datetime s
  end.

(** The column selection, [.map(directors_map)], the rename and
    [pd.to_datetime], row by row. *)
Fixpoint build_movies (dmap : gmap Z Z) (rows : list raw_movie)
    : py_error + list movie_row :=
  match rows with
  | [] => inr []
  | row :: rest =>
      match to_datetime (release_date row) with
      | inl e => inl e
      | inr d =>
          match build_movies dmap rest with
          | inl e => inl e
          | inr ms =>
              inr ({| mv_id := tmdb_id row;
                      mv_title := title row;
                      mv_overview := overview row;
                      mv_release_date := d;
                      mv_vote_average := vote_average row;
                      mv_director_id := dmap !! tmdb_id row |} :: ms)
          end
      end
  end.

(** [dropna(subset=['director_id'])] *)
Definition dropna_director (ms : list movie_row) : list movie_row :=
  filter (λ m, is_Some (mv_director_id m)) ms.

(** [astype(int)] raises on a column that still holds NaN. *)
Definition astype_int (ms : list movie_row) : py_error + list movie_row :=
  if forallb (λ m, bool_decide (is_Some (mv_director_id m))) ms
  then inr ms
  else inl IntCastingNaNError.

(** Phase 2.  With no collected movie [raw_data_df] has no columns and the
    column selection of step 3 raises. *)
Definition transform (raw_data_df : list raw_movie) : py_error + tables :=
  let '(all_genres, movie_genres_list) := genres_pass raw_data_df in
  let st := people_pass raw_data_df in
  match raw_data_df with
  | [] => inl KeyError
  | _ :: _ =>
      match build_movies (directors_map st) raw_data_df with
      | inl e => inl e
      | inr ms =>
          match astype_int (dropna_director ms) with
          | inl e => inl e
          | inr ms' =>
              inr {| movies_df := ms';
                     genres_df := all_genres;
                     people_df := all_people st;
                     movie_genres_df := movie_genres_list;
                     movie_cast_df := movie_cast_list st |}
          end
      end
  end.

End Transform.

End Normalizer.

(** ** Loader *)

Module Loader.
Import Normalizer.

(** A DataFrame as it is written to the store. *)
Inductive table :=
| MoviesTable (rows : list movie_row)
| NamesTable (rows : list (Z * string))
| MovieGenresTable (rows : list movie_genre_row)
| MovieCastTable (rows : list movie_cast_row).

Section Load.

(** Whether the store accepts a write to the table of that name; a write
    that is refused raises and leaves the store as it was. *)
Variable writable : string → bool.

(** [df.to_sql(name, engine, if_exists='replace', index=False)] *)
Definition to_sql (name : string) (df : table) (db : gmap string table)
    : option (gmap string table) :=
  if writable name then Some (<[name := df]> db) else None.

(** The statements of the [try] block in order; the first exception ends
    the block and is reported with the name of the table it came from. *)
Fixpoint load_tables (dfs : list (string * table)) (db : gmap string table)
    : gmap string table * option string :=
  match dfs with
  | [] => (db, None)
  | (name, df) :: rest =>
      match to_sql name df db with
      | Some db' => load_tables rest db'
      | None => (db, Some name)
      end
  end.

Definition load (t : tables) (db : gmap string table)
    : gmap string table * option string :=
  load_tables
    [ ("movies", MoviesTable (movies_df t));
      ("genres", NamesTable (genres_df t));
      ("people", NamesTable (people_df t));
      ("movie_genres", MovieGenresTable (movie_genres_df t));
      ("movie_cast", MovieCastTable (movie_cast_df t)) ]%string
    db.

End Load.

End Loader.

(** ** Reporter *)

Module Reporter.
Import Normalizer.

(** *** The fifth query

<<
SELECT title, release_date FROM movies
WHERE strftime('%Y', release_date) > '2001'
ORDER BY release_date DESC;
>> *)

Definition digit_char (n : Z) : Ascii.ascii :=
  Ascii.ascii_of_nat (48 + Z.to_nat n).

(** [strftime('%Y', d)]: four decimal digits, or NULL outside the years
    0000 to 9999. *)
Definition strftime_Y (d : date) : option string :=
  let y := year d in
  if bool_decide (0 ≤ y ≤ 9999) then
    Some (String (digit_char (y / 1000))
         (String (digit_char ((y / 100) `mod` 10))
         (String (digit_char ((y / 10) `mod` 10))
         (String (digit_char (y `mod` 10)) EmptyString))))
  else None.

(** [a > b] on text values; a comparison with NULL is not true. *)
Definition sql_text_gt (a : option string) (b : string) : bool :=
  match a with
  | Some s => String.ltb b s
  | None => false
  end.

Definition where_after_2001 (m : movie_row) : bool :=
  sql_text_gt (mv_release_date m ≫= strftime_Y) "2001".

(** Calendar order of two dates. *)
Definition date_le (d1 d2 : date) : Prop :=
  year d1 < year d2
  ∨ (year d1 = year d2
     ∧ (month d1 < month d2 ∨ (month d1 = month d2 ∧ day d1 ≤ day d2))).

(** The order of [ORDER BY release_date DESC]: later dates first, NULL
    last. *)
Definition release_desc (m1 m2 : movie_row) : Prop :=
  match mv_release_date m1, mv_release_date m2 with
  | _, None => True
  | None, Some _ => False
  | Some d1, Some d2 => date_le d2 d1
  end.

#[global] Instance date_le_dec d1 d2 : Decision (date_le d1 d2).
Proof. unfold date_le. apply _. Defined.

#[global] Instance release_desc_dec m1 m2 : Decision (release_desc m1 m2).
Proof.
  unfold release_desc.
  destruct (mv_release_date m1), (mv_release_date m2); apply _.
Defined.

Definition eval_query5 (movies : list movie_row)
    : list (option string * option date) :=
  (λ m, (mv_title m, mv_release_date m))
    <$> merge_sort release_desc (filter (λ m, where_after_2001 m) movies).

(** *** The batch *)

Inductive query :=
| query1_top_movies
| query2_movies_per_genre
| query3_top_directors
| query4_director_avg_rating
| query5_movies_after_2001.

#[global] Instance query_eq_dec : EqDecision query.
Proof. solve_decision. Defined.

Definition queries : list (string * query) :=
  [ ("1. The top 10 movies based on ratings", query1_top_movies);
    ("2. Number of films by genre", query2_movies_per_genre);
    ("3. The 5 most prolific directors", query3_top_directors);
    ("4. Average rating per director (with >1 film)",
     query4_director_avg_rating);
    ("5. Films after 2001", query5_movies_after_2001) ]%string.

(** A result set, as a list of printed rows. *)
Definition dataframe : Type := list (list string).

Inductive output :=
| OutConnected
| OutTitle (title : string)
| OutNoResults
| OutFrame (df : dataframe)
| OutError (msg : string)
| OutClosed.

Record report_state := ReportState {
  conn_open : bool;
  executed : list query;
  printed : list output
}.

Definition print (o : output) (st : report_state) : report_state :=
  {| conn_open := conn_open st;
     executed := executed st;
     printed := printed st ++ [o] |}.

Section Batch.

(** [sqlite3.connect]: [Some msg] when it raises. *)
Variable connect : option string.
(** [pd.read_sql_query] on the open connection: a result set or the
    message of the exception it raises. *)
Variable read_sql_query : query → string + dataframe.

(** [for title, query in queries.items()]; an exception leaves the loop. *)
Fixpoint run_queries (qs : list (string * query)) (st : report_state)
    : report_state * option string :=
  match qs with
  | [] => (st, None)
  | (title, q) :: rest =>
      let st1 := print (OutTitle title) st in
      let st2 := {| conn_open := conn_open st1;
                    executed := executed st1 ++ [q];
                    printed := printed st1 |} in
      match read_sql_query q with
      | inl e => (st2, Some e)
      | inr df =>
          run_queries rest
            (print (match df with [] => OutNoResults | _ => OutFrame df end)
                   st2)
      end
  end.

(** The [try] / [except Exception] / [finally] of the second [__main__]
    block.  The third component of the [try] result tells whether [conn]
    was bound. *)
Definition report : report_state :=
  let st0 := {| conn_open := false; executed := []; printed := [] |} in
  let '(st, exn, conn_bound) :=
    match connect with
    | Some e => (st0, Some e, false)
    | None =>
        let st1 := print OutConnected
                     {| conn_open := true; executed := []; printed := [] |} in
        let '(st2, exn) := run_queries queries st1 in
        (st2, exn, true)
    end in
  let st' :=
    match exn with
    | Some e => print (OutError e) st
    | None => st
    end in
  if conn_bound
  then print OutClosed
         {| conn_open := false;
            executed := executed st';
            printed := printed st' |}
  else st'.

End Batch.

End Reporter.

(** ** Vocabulary of the statements

    The notions below do not occur in the script; the theorems use them to
    say what the loops compute. *)

Module Vocabulary.
Import Normalizer.

(** The name that comes with the first occurrence of [k] in a sequence of
    (id, name) pairs. *)
Fixpoint first_seen (k : Z) (l : list (Z * string)) : option string :=
  match l with
  | [] => None
  | (k', v) :: rest => if bool_decide (k' = k) then Some v else first_seen k rest
  end.

Definition is_director (m : crew_obj) : bool := String.eqb (m_job m) "Director".

(** The first crew member, in listed order, whose job is "Director". *)
Definition find_director (crew : list crew_obj) : option crew_obj :=
  List.find is_director crew.

Definition genre_entry (g : genre_obj) : Z * string := (g_id g, g_name g).
Definition cast_entry (a : cast_obj) : Z * string := (a_id a, a_name a).
Definition director_entry (crew : list crew_obj) : list (Z * string) :=
  match find_director crew with
  | Some m => [(m_id m, m_name m)]
  | None => []
  end.

(** The (id, name) pairs in the order in which the genres pass meets
    them. *)
Definition genre_stream (raw : list raw_movie) : list (Z * string) :=
  row ← raw; genre_entry <$> genres row.

(** The (id, name) pairs in the order in which the people pass meets them:
    per movie its director, if any, then its first ten cast members. *)
Definition people_of (row : raw_movie) : list (Z * string) :=
  director_entry (crew row) ++ (cast_entry <$> take 10 (cast row)).

Definition people_stream (raw : list raw_movie) : list (Z * string) :=
  row ← raw; people_of row.

(** The MovieCast rows of one movie record. *)
Definition cast_rows (row : raw_movie) : list movie_cast_row :=
  (λ a, MovieCastRow (tmdb_id row) (a_id a) (a_character a))
    <$> take 10 (cast row).

Definition genre_rows (row : raw_movie) : list movie_genre_row :=
  (λ g, MovieGenreRow (tmdb_id row) (g_id g)) <$> genres row.

(** [dict_add_if_absent] over a sequence of pairs. *)
Definition dict_add_all (d : py_dict) (l : list (Z * string)) : py_dict :=
  foldl (λ d p, dict_add_if_absent p.1 p.2 d) d l.

(** The release year of a stored row is after 2001. *)
Definition released_after_2001 (m : movie_row) : Prop :=
  match mv_release_date m with
  | Some d => 2001 < year d
  | None => False
  end.

#[global] Instance released_after_2001_dec m : Decision (released_after_2001 m).
Proof. unfold released_after_2001. destruct (mv_release_date m); apply _. Defined.

End Vocabulary.

Module LoadVocabulary.
Import Loader.

(** The tables a run of the [try] block writes: the longest prefix whose
    writes are all accepted. *)
Fixpoint written (writable : string → bool) (dfs : list (string * table))
    : list (string * table) :=
  match dfs with
  | [] => []
  | (name, df) :: rest =>
      if writable name then (name, df) :: written writable rest else []
  end.

Definition insert_all (db : gmap string table) (dfs : list (string * table))
    : gmap string table :=
  foldl (λ db p, <[p.1 := p.2]> db) db dfs.

End LoadVocabulary.

Module BatchVocabulary.
Import Reporter.

(** The queries a run of the loop sends to the store: those up to and
    including the first one that raises. *)
Fixpoint attempted (read_sql_query : query → string + dataframe)
    (qs : list query) : list query :=
  match qs with
  | [] => []
  | q :: rest =>
      q :: match read_sql_query q with
           | inl _ => []
           | inr _ => attempted read_sql_query rest
           end
  end.

(** The message of the first query that raises, if one does. *)
Fixpoint first_error (read_sql_query : query → string + dataframe)
    (qs : list query) : option string :=
  match qs with
  | [] => None
  | q :: rest =>
      match read_sql_query q with
      | inl e => Some e
      | inr _ => first_error read_sql_query rest
      end
  end.

End BatchVocabulary.

(** ** The other report queries *)

Module Queries.
Import Normalizer.

(** *** Query 1

<<
SELECT title, vote_average FROM movies
ORDER BY vote_average DESC LIMIT 10;
>> *)

(** The order of [ORDER BY vote_average DESC]: higher ratings first, NULL
    last. *)
Definition rating_desc (m1 m2 : movie_row) : Prop :=
  match mv_vote_average m1, mv_vote_average m2 with
  | _, None => True
  | None, Some _ => False
  | Some r1, Some r2 => Qcanon.Qcle r2 r1
  end.

#[global] Instance rating_desc_dec m1 m2 : Decision (rating_desc m1 m2).
Proof.
  unfold rating_desc.
  destruct (mv_vote_average m1), (mv_vote_average m2); apply _.
Defined.

Definition eval_query1 (movies : list movie_row)
    : list (option string * option rating) :=
  (λ m, (mv_title m, mv_vote_average m))
    <$> take 10 (merge_sort rating_desc movies).

(** *** Grouping

    [GROUP BY name] with [COUNT(...)] over the names of the joined rows:
    one group per distinct name, holding the number of rows with that
    name. *)
Fixpoint bump (name : string) (groups : list (string * nat))
    : list (string * nat) :=
  match groups with
  | [] => [(name, 1%nat)]
  | (n, c) :: rest =>
      if bool_decide (n = name) then (n, S c) :: rest
      else (n, c) :: bump name rest
  end.

Definition group_count (names : list string) : list (string * nat) :=
  foldl (λ groups name, bump name groups) [] names.

(** The order of [ORDER BY <count> DESC]. *)
Definition count_desc (g1 g2 : string * nat) : Prop := (g2.2 ≤ g1.2)%nat.

#[global] Instance count_desc_dec g1 g2 : Decision (count_desc g1 g2).
Proof. unfold count_desc. apply _. Defined.

(** *** Query 2

<<
SELECT g.name, COUNT(mg.movie_id) AS movie_count
FROM genres g JOIN movie_genres mg ON g.id = mg.genre_id
GROUP BY g.name ORDER BY movie_count DESC;
>> *)

(** [g.name] of every row of the join. *)
Definition join_genres (genres : list (Z * string))
    (movie_genres : list movie_genre_row) : list string :=
  g ← genres; mg ← movie_genres;
  if bool_decide (g.1 = mg_genre_id mg) then [g.2] else [].

Definition eval_query2 (genres : list (Z * string))
    (movie_genres : list movie_genre_row) : list (string * nat) :=
  merge_sort count_desc (group_count (join_genres genres movie_genres)).

(** *** Query 3

<<
SELECT p.name, COUNT(m.id) AS directed_movies
FROM people p JOIN movies m ON p.id = m.director_id
GROUP BY p.name ORDER BY directed_movies DESC LIMIT 5;
>> *)




End Queries.

(** ** The script from extraction to load *)

Module Pipeline.
Import Fetcher Normalizer Loader.

Inductive outcome :=
| Crashed (e : py_error)
| Loaded (failed_table : option string).

(** Phases 1 to 3 in sequence.  An exception of the transform is not
    caught: the script ends there and the store is not touched. *)
Definition etl (net : network)
    (parse_datetime : string → py_error + option date)
    (writable : string → bool) (db : gmap string table)
    : gmap string table * outcome :=
  let '(all_movies_data, _) := extract net in
  match transform parse_datetime all_movies_data with
  | inl e => (db, Crashed e)
  | inr t =>
      let '(db', failed) := load writable t db in
      (db', Loaded failed)
  end.

End Pipeline.

Module ExtraVocabulary.
Import Fetcher Normalizer.

(** The requests one summary of the listing gives rise to. *)
Definition requests_for (s : summary) : list request :=
  match s_id s with
  | Some mid => if truthy_id (Some mid)
                then [ReqDetails mid; ReqCredits mid] else []
  | None => []
  end.

(** The pages that are requested when the first two answer with the given
    statuses. *)
Definition pages_requested (status1 status2 : Z) : list Z :=
  if status1 =? 200 then if status2 =? 200 then [1; 2; 3] else [1; 2]
  else [1].

(** An error line of the report. *)
Definition is_error_output (o : Reporter.output) : bool :=
  match o with
  | Reporter.OutError _ => true
  | _ => false
  end.

(** The lines the query loop prints. *)
Definition plain_output (o : Reporter.output) : Prop :=
  match o with
  | Reporter.OutTitle _ | Reporter.OutNoResults | Reporter.OutFrame _ => True
  | _ => False
  end.

(** The count stored with a name in a list of groups, 0 when the name has
    no group. *)
Fixpoint group_size (name : string) (groups : list (string * nat)) : nat :=
  match groups with
  | [] => 0%nat
  | (n, c) :: rest =>
      if bool_decide (n = name) then c else group_size name rest
  end.

(** The number of occurrences of a name. *)
Definition occurrences (name : string) (names : list string) : nat :=
  length (filter (λ n, n = name) names).

(** The names of the rows of a join of a names table with another table
    on a condition [P]. *)
Definition join_on {X : Type} (P : Z * string → X → Prop)
    `{∀ g x, Decision (P g x)} (gs : list (Z * string)) (xs : list X)
    : list string :=
  g ← gs; x ← xs; if bool_decide (P g x) then [g.2] else [].

End ExtraVocabulary.

(** ** Sample data for the closed instances *)

Module Examples.
Import Fetcher Normalizer.

(** A listing in which every page answers 200 with twenty entries, and one
    whose second page answers 500. *)
Definition page_of (page : Z) : list summary :=
  (λ i, Summary (Some (page * 100 + i)) None) <$> seqZ 0 20.

Definition net_ok : network :=
  {| get_top_rated := λ _ page, Response 200 (Some (page_of page));
     get_details := λ _ mid,
       Response 200 (DetailsObj mid None None None None None);
     get_credits := λ _ mid, Response 200 (CreditsObj (Some mid) None None) |}.

Definition net_page2_down : network :=
  {| get_top_rated := λ _ page,
       if page =? 2 then Response 500 None
       else Response 200 (Some (page_of page));
     get_details := get_details net_ok;
     get_credits := get_credits net_ok |}.

(** A reader of "YYYY-MM-DD" strings, standing in for [pd.to_datetime] in
    the closed instances: the empty string is NaT, anything else that is not
    of that shape raises. *)
Definition digit_of (c : Ascii.ascii) : option Z :=
  let n := Z.of_nat (Ascii.nat_of_ascii c) in
  if bool_decide (48 ≤ n ≤ 57) then Some (n - 48) else None.

Definition hyphen : Ascii.ascii := Ascii.ascii_of_nat 45.

Definition number_of (cs : list Ascii.ascii) : option Z :=
  foldl (λ acc c, n ← acc; d ← digit_of c; Some (10 * n + d)) (Some 0) cs.

Definition parse_iso (s : string) : py_error + option date :=
  match s with
  | EmptyString => inr None
  | String y1 (String y2 (String y3 (String y4 (String sep1
      (String m1 (String m2 (String sep2
      (String d1 (String d2 EmptyString))))))))) =>
      if bool_decide (sep1 = hyphen ∧ sep2 = hyphen) then
        match number_of [y1; y2; y3; y4], number_of [m1; m2],
              number_of [d1; d2] with
        | Some y, Some m, Some d => inr (Some (Date y m d))
        | _, _, _ => inl ParserError
        end
      else inl ParserError
  | _ => inl ParserError
  end.

(** A movie with a writer and two credited directors. *)
Definition two_directors : raw_movie :=
  {| tmdb_id := 1; title := Some "Alpha"; overview := None;
     release_date := Some "1994-09-23"; vote_average := None;
     genres := [GenreObj 18 "Drama"];
     cast := [CastObj 9 "Ann" "Lead"];
     crew := [CrewObj "Writer" 3 "W"; CrewObj "Director" 5 "A";
              CrewObj "Director" 6 "B"] |}.

(** A movie with genres and cast but nobody credited as director. *)
Definition no_director : raw_movie :=
  {| tmdb_id := 2; title := Some "Beta"; overview := None;
     release_date := Some "2002-06-15"; vote_average := None;
     genres := [GenreObj 18 "Drame"; GenreObj 35 "Comedy"];
     cast := [CastObj 9 "Ann B." "Friend"; CastObj 5 "A as actor" "Cameo"];
     crew := [CrewObj "Producer" 4 "P"] |}.

(** A second record for movie 1 whose crew list has no director. *)
Definition same_id_no_director : raw_movie :=
  {| tmdb_id := 1; title := Some "Alpha again"; overview := None;
     release_date := Some "1994-09-23"; vote_average := None;
     genres := []; cast := []; crew := [CrewObj "Writer" 3 "W"] |}.

(** Twelve cast members. *)
Definition twelve_cast : raw_movie :=
  {| tmdb_id := 3; title := Some "Gamma"; overview := None;
     release_date := None; vote_average := None;
     genres := [];
     cast := (λ i, CastObj (100 + i) "actor" "role") <$> seqZ 0 12;
     crew := [CrewObj "Director" 5 "A"] |}.

(** The five tables the transform produces from [two_directors] and
    [no_director]. *)
Definition sample_tables : tables :=
  {| movies_df :=
       [ {| mv_id := 1; mv_title := Some "Alpha"; mv_overview := None;
            mv_release_date := Some (Date 1994 9 23);
            mv_vote_average := None; mv_director_id := Some 5 |} ];
     genres_df := [(18, "Drama"); (35, "Comedy")];
     people_df := [(5, "A"); (9, "Ann")];
     movie_genres_df :=
       [MovieGenreRow 1 18; MovieGenreRow 2 18; MovieGenreRow 2 35];
     movie_cast_df :=
       [MovieCastRow 1 9 "Lead"; MovieCastRow 2 9 "Friend";
        MovieCastRow 2 5 "Cameo"] |}.

(** A movies table with releases dated 2000-01-01, 2001-12-31 and
    2002-06-15. *)
Definition sample_movies : list movie_row :=
  [ MovieRow 10 (Some "A") None (Some (Date 2000 1 1)) None (Some 5);
    MovieRow 11 (Some "B") None (Some (Date 2001 12 31)) None (Some 5);
    MovieRow 12 (Some "C") None (Some (Date 2002 6 15)) None (Some 6) ].

(** A store in which the people table is missing: the third and the fourth
    query raise, the others return one row. *)
Definition people_table_missing (q : Reporter.query)
    : string + Reporter.dataframe :=
  match q with
  | Reporter.query3_top_directors | Reporter.query4_director_avg_rating =>
      inl "no such table: people"%string
  | _ => inr [["row"%string]]
  end.

(** A store in which every query returns one row. *)
Definition all_queries_answer (q : Reporter.query)
    : string + Reporter.dataframe :=
  inr [["row"%string]].

(** Twelve rated movies, the rating of movie [i] being [i]. *)
Definition rated_movies : list movie_row :=
  (λ i, MovieRow i None None None (Some (Qc_of_Z i)) (Some 5)) <$> seqZ 0 12.

End Examples.

(** * Theorems *)

(** ** Fetcher *)

Module FetcherSpec.
Import Fetcher Examples.

Lemma fetch_pages_length net pages acc lg :
  (length (fetch_pages net pages acc lg).1 ≤ 50)%nat.
Proof.
  revert acc lg. induction pages as [|page rest IH]; intros acc lg; simpl.
  - rewrite length_take. lia.
  - destruct (status_code _ =? 200); [apply IH | simpl; lia].
Qed.

(** C3. [fetch_top_movies] returns at most 50 summaries; when the three
    pages all answer 200 it returns their results, concatenated in page
    order and cut to 50; when any of them answers another status it returns
    the empty list. *)
Theorem fetch_top_movies_spec (net : network) (lg : log) :
  let p1 := get_top_rated net (length lg) 1 in
  let p2 := get_top_rated net (S (length lg)) 2 in
  let p3 := get_top_rated net (S (S (length lg))) 3 in
  let out := (fetch_top_movies net lg).1 in
  (length out ≤ 50)%nat
  ∧ (status_code p1 = 200 → status_code p2 = 200 → status_code p3 = 200 →
     out = take 50 (default [] (json p1) ++ default [] (json p2)
                    ++ default [] (json p3)))
  ∧ (status_code p1 ≠ 200 ∨ status_code p2 ≠ 200 ∨ status_code p3 ≠ 200 →
     out = []).
Proof.
  intros p1 p2 p3 out. split; [apply fetch_pages_length|].
  subst out. unfold fetch_top_movies. simpl.
  rewrite !length_app. simpl.
  replace (length lg + 1)%nat with (S (length lg)) by lia.
  replace (S (length lg) + 1)%nat with (S (S (length lg))) by lia.
  fold p1 p2 p3.
  destruct (Z.eqb_spec (status_code p1) 200) as [H1|H1];
    destruct (Z.eqb_spec (status_code p2) 200) as [H2|H2];
    destruct (Z.eqb_spec (status_code p3) 200) as [H3|H3];
    simpl; split; intros; try congruence; try tauto.
  by rewrite <- (assoc_L (++)).
Qed.

Lemma fetch_top_movies_spec_witness :
  length (fetch_top_movies net_ok []).1 = 50%nat
  ∧ (fetch_top_movies net_ok []).1
    = take 50 (page_of 1 ++ page_of 2 ++ page_of 3)
  ∧ (fetch_top_movies net_page2_down []).1 = [].
Proof.
  split; [reflexivity|]. split.
  - destruct (fetch_top_movies_spec net_ok []) as (_ & H & _).
    apply H; reflexivity.
  - destruct (fetch_top_movies_spec net_page2_down []) as (_ & _ & H).
    apply H. right. left. simpl. lia.
Defined.

Lemma extract_step_falsy net st s :
  truthy_id (s_id s) = false → extract_step net st s = st.
Proof. intros H. destruct st as [ms lg]. unfold extract_step. by rewrite H. Qed.

(** C10. A summary whose 'id' is missing or 0 is skipped: its iteration
    leaves [all_movies_data] and the request log as they were, so no detail
    or credits request is issued for it, and the whole extract loop yields
    what it yields on the listing without that summary. *)
Theorem skip_summary_without_id (net : network) (s : summary) :
  s_id s = None ∨ s_id s = Some 0 →
  (∀ st, extract_step net st s = st)
  ∧ (∀ st pre post,
       extract_loop net st (pre ++ s :: post)
       = extract_loop net st (pre ++ post)).
Proof.
  intros Hid.
  assert (Hf : truthy_id (s_id s) = false) by (by destruct Hid as [-> | ->]).
  split; [intros st; by apply extract_step_falsy|].
  intros st pre post. unfold extract_loop.
  rewrite !foldl_app. simpl. by rewrite extract_step_falsy.
Qed.

Lemma skip_summary_without_id_witness :
  extract_step net_ok ([], []) (Summary (Some 0) (Some "x")) = ([], [])
  ∧ extract_loop net_ok ([], [])
      [Summary (Some 7) None; Summary (Some 0) (Some "x");
       Summary (Some 8) None]
    = extract_loop net_ok ([], [])
        [Summary (Some 7) None; Summary (Some 8) None].
Proof.
  destruct (skip_summary_without_id net_ok (Summary (Some 0) (Some "x")))
    as [Hstep Hloop]; [right; reflexivity|].
  split; [apply Hstep|].
  apply (Hloop ([], []) [Summary (Some 7) None] [Summary (Some 8) None]).
Defined.

End FetcherSpec.

(** ** Normalizer *)

Module NormalizerSpec.
Import Normalizer Vocabulary Examples.

(** *** Insertion-ordered dictionaries *)

Lemma dict_contains_true k d : dict_contains k d = true ↔ k ∈ d.*1.
Proof. unfold dict_contains. apply bool_decide_eq_true. Qed.

Lemma dict_contains_false k d : dict_contains k d = false ↔ k ∉ d.*1.
Proof. unfold dict_contains. apply bool_decide_eq_false. Qed.

Lemma dict_add_NoDup k v d :
  NoDup d.*1 → NoDup (dict_add_if_absent k v d).*1.
Proof.
  intros Hd. unfold dict_add_if_absent.
  destruct (dict_contains k d) eqn:E; [done|].
  apply dict_contains_false in E.
  rewrite fmap_app. apply NoDup_app. split_and!; [done| |].
  - intros x Hx Hin. simpl in Hin. apply list_elem_of_singleton in Hin. by subst.
  - simpl. apply NoDup_singleton.
Qed.

Lemma first_seen_app k l1 l2 :
  first_seen k (l1 ++ l2)
  = match first_seen k l1 with Some v => Some v | None => first_seen k l2 end.
Proof.
  induction l1 as [|[k' v] l1 IH]; simpl; [done|].
  by case_bool_decide.
Qed.

Lemma first_seen_None k l : first_seen k l = None ↔ k ∉ l.*1.
Proof.
  induction l as [|[k' v] l IH]; simpl.
  - split; [intros _; apply not_elem_of_nil | done].
  - rewrite not_elem_of_cons. case_bool_decide; subst.
    + split; [done | intros [? _]; done].
    + rewrite IH. split; [intros ?; split; [congruence|done] | tauto].
Qed.

Lemma first_seen_elem k v d :
  NoDup d.*1 → (k, v) ∈ d ↔ first_seen k d = Some v.
Proof.
  induction d as [|[k' v'] d IH]; simpl; intros Hnd.
  - split; [intros H; by apply elem_of_nil in H | done].
  - apply NoDup_cons in Hnd as [Hk' Hnd]. rewrite elem_of_cons.
    case_bool_decide as Hk; subst.
    + split.
      * intros [?|Hin]; [congruence|].
        exfalso. apply Hk'. apply list_elem_of_fmap. by exists (k, v).
      * intros [= ->]. by left.
    + rewrite <- IH by done.
      split; [intros [[=]|?]; [congruence | done] | tauto].
Qed.

Lemma dict_add_first_seen k v d k' :
  first_seen k' (dict_add_if_absent k v d) = first_seen k' (d ++ [(k, v)]).
Proof.
  unfold dict_add_if_absent. destruct (dict_contains k d) eqn:E; [|done].
  apply dict_contains_true in E. rewrite first_seen_app. simpl.
  destruct (first_seen k' d) eqn:F; [done|].
  case_bool_decide; [subst|done].
  apply first_seen_None in F. done.
Qed.

Lemma dict_add_all_app d l1 l2 :
  dict_add_all d (l1 ++ l2) = dict_add_all (dict_add_all d l1) l2.
Proof. unfold dict_add_all. apply foldl_app. Qed.

Lemma dict_add_all_NoDup d l : NoDup d.*1 → NoDup (dict_add_all d l).*1.
Proof.
  revert d. induction l as [|[k v] l IH]; intros d Hd; simpl; [done|].
  apply IH. by apply dict_add_NoDup.
Qed.

Lemma dict_add_all_first_seen d l k :
  first_seen k (dict_add_all d l) = first_seen k (d ++ l).
Proof.
  revert d. induction l as [|[k' v] l IH]; intros d; simpl.
  - by rewrite app_nil_r.
  - rewrite IH, !first_seen_app, dict_add_first_seen, first_seen_app. simpl.
    destruct (first_seen k d); [done|]. by case_bool_decide.
Qed.

Lemma dict_add_all_keys d l k :
  k ∈ (dict_add_all d l).*1 ↔ k ∈ d.*1 ∨ k ∈ l.*1.
Proof.
  rewrite <- elem_of_app, <- fmap_app.
  pose proof (first_seen_None k (dict_add_all d l)) as H1.
  pose proof (first_seen_None k (d ++ l)) as H2.
  rewrite dict_add_all_first_seen in H1.
  split; intros H; apply dec_stable; intros Hn; tauto.
Qed.

(** *** The genres pass *)

Lemma genres_inner_spec mid gs d rows :
  foldl (genres_step mid) (d, rows) gs
  = (dict_add_all d (genre_entry <$> gs),
     rows ++ ((λ g, MovieGenreRow mid (g_id g)) <$> gs)).
Proof.
  revert d rows. induction gs as [|g gs IH]; intros d rows; simpl.
  - by rewrite app_nil_r.
  - rewrite IH. by rewrite <- (assoc_L (++)).
Qed.

Lemma genres_fold_spec raw d rows :
  foldl genres_row (d, rows) raw
  = (dict_add_all d (genre_stream raw), rows ++ (raw ≫= genre_rows)).
Proof.
  revert d rows. induction raw as [|row raw IH]; intros d rows; simpl.
  - by rewrite app_nil_r.
  - unfold genres_row at 2. rewrite genres_inner_spec, IH.
    unfold genre_stream. simpl. rewrite dict_add_all_app.
    f_equal. by rewrite <- (assoc_L (++)).
Qed.

Lemma genres_pass_spec raw :
  genres_pass raw = (dict_add_all [] (genre_stream raw), raw ≫= genre_rows).
Proof. unfold genres_pass. by rewrite genres_fold_spec. Qed.

(** *** The people pass *)

Lemma scan_crew_spec mid crew st :
  scan_crew mid crew st
  = match find_director crew with
    | Some m =>
        {| all_people := dict_add_if_absent (m_id m) (m_name m) (all_people st);
           movie_cast_list := movie_cast_list st;
           directors_map := <[mid := m_id m]> (directors_map st) |}
    | None => st
    end.
Proof.
  induction crew as [|m crew IH]; simpl; [done|].
  unfold find_director, is_director in *. simpl.
  by destruct (String.eqb (m_job m) "Director").
Qed.

Lemma scan_crew_people mid crew st :
  all_people (scan_crew mid crew st)
  = dict_add_all (all_people st) (director_entry crew).
Proof.
  rewrite scan_crew_spec. unfold director_entry.
  by destruct (find_director crew).
Qed.

Lemma cast_fold_spec mid actors st :
  foldl (cast_step mid) st actors
  = {| all_people := dict_add_all (all_people st) (cast_entry <$> actors);
       movie_cast_list :=
         movie_cast_list st
           ++ ((λ a, MovieCastRow mid (a_id a) (a_character a)) <$> actors);
       directors_map := directors_map st |}.
Proof.
  revert st. induction actors as [|a actors IH]; intros st; simpl.
  - rewrite app_nil_r. by destruct st.
  - rewrite IH. simpl. by rewrite <- (assoc_L (++)).
Qed.

Lemma people_row_spec st row :
  people_row st row
  = {| all_people := dict_add_all (all_people st) (people_of row);
       movie_cast_list := movie_cast_list st ++ cast_rows row;
       directors_map :=
         match find_director (crew row) with
         | Some m => <[tmdb_id row := m_id m]> (directors_map st)
         | None => directors_map st
         end |}.
Proof.
  unfold people_row. rewrite cast_fold_spec.
  unfold people_of. rewrite dict_add_all_app, scan_crew_people.
  rewrite scan_crew_spec. unfold cast_rows.
  by destruct (find_director (crew row)).
Qed.

Lemma people_fold_people st raw :
  all_people (foldl people_row st raw)
  = dict_add_all (all_people st) (people_stream raw).
Proof.
  revert st. induction raw as [|row raw IH]; intros st; simpl; [done|].
  rewrite IH, people_row_spec. simpl.
  unfold people_stream. simpl. by rewrite dict_add_all_app.
Qed.

Lemma people_fold_cast st raw :
  movie_cast_list (foldl people_row st raw)
  = movie_cast_list st ++ (raw ≫= cast_rows).
Proof.
  revert st. induction raw as [|row raw IH]; intros st; simpl.
  - by rewrite app_nil_r.
  - rewrite IH, people_row_spec. simpl. by rewrite <- (assoc_L (++)).
Qed.


(** *** Claims about the people pass *)

(** C4. Processing one movie record appends to [movie_cast_list] one row
    per entry of the first ten entries of its cast list, in listed order:
    [min 10 (length cast)] rows.  Over the whole pass the table is the
    concatenation of these per-movie blocks. *)
Theorem cast_rows_first_ten (st : people_state) (row : raw_movie) :
  (∃ rows,
     movie_cast_list (people_row st row) = movie_cast_list st ++ rows
     ∧ rows = (λ a, MovieCastRow (tmdb_id row) (a_id a) (a_character a))
                <$> take 10 (cast row)
     ∧ length rows = Nat.min 10 (length (cast row)))
  ∧ (∀ raw, movie_cast_list (people_pass raw) = raw ≫= cast_rows).
Proof.
  split.
  - exists (cast_rows row). rewrite people_row_spec. simpl.
    split_and!; [done..|].
    unfold cast_rows. by rewrite length_fmap, length_take.
  - intros raw. unfold people_pass. by rewrite people_fold_cast.
Qed.

(** The scenario of twelve cast entries: ten rows, those of the first ten
    entries. *)
Example twelve_cast_ten_rows :
  length (cast_rows twelve_cast) = 10%nat
  ∧ mc_person_id <$> cast_rows twelve_cast = (λ i, 100 + i) <$> seqZ 0 10.
Proof. split; reflexivity. Qed.

Lemma find_director_first pre member post :
  Forall (λ m, m_job m ≠ "Director") pre →
  m_job member = "Director" →
  find_director (pre ++ member :: post) = Some member.
Proof.
  intros Hpre Hm. unfold find_director.
  induction Hpre as [|m pre Hx _ IH]; simpl.
  - unfold is_director. rewrite Hm. done.
  - unfold is_director at 1.
    destruct (String.eqb_spec (m_job m) "Director"); [done|apply IH].
Qed.

(** C5. When the crew list of a record is [pre ++ member :: post], with
    [member] the first entry whose job is "Director", the director recorded
    for the movie is the id of [member], whatever follows it in the list.
    For the crew Writer, Director 5, Director 6 it is 5. *)
Theorem director_is_first_match (st : people_state) (row : raw_movie)
    (pre post : list crew_obj) (member : crew_obj) :
  crew row = pre ++ member :: post →
  Forall (λ m, m_job m ≠ "Director") pre →
  m_job member = "Director" →
  directors_map (people_row st row) !! tmdb_id row = Some (m_id member)
  ∧ (∀ post', directors_map (scan_crew (tmdb_id row) (pre ++ member :: post') st)
              = directors_map (scan_crew (tmdb_id row) (crew row) st))
  ∧ (∀ mid wid wname,
       directors_map
         (scan_crew mid [CrewObj "Writer" wid wname; CrewObj "Director" 5 "A";
                         CrewObj "Director" 6 "B"] st) !! mid = Some 5).
Proof.
  intros Hcrew Hpre Hm. split_and!.
  - rewrite people_row_spec. simpl.
    rewrite Hcrew, find_director_first by done.
    apply lookup_insert_eq.
  - intros post'. rewrite Hcrew, !scan_crew_spec.
    by rewrite !find_director_first by done.
  - intros mid wid wname. simpl. apply lookup_insert_eq.
Qed.

Lemma director_is_first_match_witness :
  directors_map (people_row people_init two_directors) !! 1 = Some 5.
Proof.
  refine (proj1 (director_is_first_match people_init two_directors
            [CrewObj "Writer" 3 "W"] [CrewObj "Director" 6 "B"]
            (CrewObj "Director" 5 "A") eq_refl _ eq_refl)).
  repeat constructor. simpl. discriminate.
Defined.

(** *** The tables of a successful transform *)

Section Tables.
Variable parse_datetime : string → py_error + option date.

Lemma build_movies_director dmap raw ms :
  build_movies parse_datetime dmap raw = inr ms →
  Forall2 (λ row m, mv_id m = tmdb_id row ∧ mv_title m = title row
                    ∧ mv_director_id m = dmap !! tmdb_id row) raw ms.
Proof.
  revert ms. induction raw as [|row raw IH]; intros ms; simpl.
  - intros [= <-]. constructor.
  - destruct (to_datetime _ _); [done|].
    destruct (build_movies _ _ raw); [done|].
    intros [= <-]. constructor; [done|by apply IH].
Qed.

Lemma astype_int_inr ms ms' : astype_int ms = inr ms' → ms' = ms.
Proof. unfold astype_int. destruct (forallb _ ms); congruence. Qed.

Lemma transform_inr raw t :
  transform parse_datetime raw = inr t →
  raw ≠ []
  ∧ genres_df t = (genres_pass raw).1
  ∧ movie_genres_df t = (genres_pass raw).2
  ∧ people_df t = all_people (people_pass raw)
  ∧ movie_cast_df t = movie_cast_list (people_pass raw)
  ∧ ∃ ms, build_movies parse_datetime (directors_map (people_pass raw)) raw
          = inr ms
          ∧ movies_df t = dropna_director ms.
Proof.
  unfold transform. destruct (genres_pass raw) as [g mg].
  destruct raw as [|row raw]; [done|].
  destruct (build_movies _ _ _) as [|ms] eqn:Hb; [done|].
  destruct (astype_int _) as [|ms'] eqn:Ha; [done|].
  apply astype_int_inr in Ha. subst ms'.
  intros [= <-]. simpl. split_and!; try done. by exists ms.
Qed.


End Tables.

(** C6. In the tables of a successful transform no id occurs twice in the
    genres table or in the people table, and the name stored with an id is
    the name that came with the first occurrence of that id during the
    pass; an id that is already stored is never given another name. *)
Theorem ids_unique_first_name_wins
    (parse_datetime : string → py_error + option date)
    (raw : list raw_movie) (t : tables) :
  transform parse_datetime raw = inr t →
  NoDup (genres_df t).*1
  ∧ NoDup (people_df t).*1
  ∧ (∀ k v, (k, v) ∈ genres_df t ↔ first_seen k (genre_stream raw) = Some v)
  ∧ (∀ k v, (k, v) ∈ people_df t ↔ first_seen k (people_stream raw) = Some v)
  ∧ (∀ k v v' (d : py_dict), (k, v) ∈ d → dict_add_if_absent k v' d = d).
Proof.
  intros Ht. apply transform_inr in Ht as (_ & Hg & _ & Hp & _).
  rewrite Hg, Hp, genres_pass_spec. unfold people_pass.
  rewrite people_fold_people. simpl.
  assert (Hnil : NoDup (@nil (Z * string)).*1) by apply NoDup_nil_2.
  split_and!.
  - by apply dict_add_all_NoDup.
  - by apply dict_add_all_NoDup.
  - intros k v. rewrite first_seen_elem by by apply dict_add_all_NoDup.
    by rewrite dict_add_all_first_seen.
  - intros k v. rewrite first_seen_elem by by apply dict_add_all_NoDup.
    by rewrite dict_add_all_first_seen.
  - intros k v v' d Hin. unfold dict_add_if_absent.
    replace (dict_contains k d) with true; [done|].
    symmetry. apply dict_contains_true, list_elem_of_fmap. by exists (k, v).
Qed.

Lemma ids_unique_first_name_wins_witness :
  NoDup (people_df sample_tables).*1
  ∧ (9, "Ann"%string) ∈ people_df sample_tables
  ∧ (18, "Drama"%string) ∈ genres_df sample_tables.
Proof.
  destruct (ids_unique_first_name_wins parse_iso
              [two_directors; no_director] sample_tables eq_refl)
    as (_ & Hp & Hg & Hpn & _).
  split; [exact Hp|]. split; [by apply Hpn | by apply Hg].
Defined.

(** *** Junction tables and the movies table *)

(** The genre ids of the junction rows are ids of the genres table, and
    their movie ids are ids of collected records. *)
Lemma movie_genres_refs raw r :
  r ∈ (genres_pass raw).2 →
  mg_genre_id r ∈ ((genres_pass raw).1).*1
  ∧ mg_movie_id r ∈ tmdb_id <$> raw.
Proof.
  rewrite genres_pass_spec. simpl. intros Hr.
  apply list_elem_of_bind in Hr as (row & Hr & Hrow).
  unfold genre_rows in Hr. apply list_elem_of_fmap in Hr as (g & -> & Hg).
  simpl. split.
  - apply dict_add_all_keys. right. unfold genre_stream.
    apply list_elem_of_fmap. exists (genre_entry g). split; [done|].
    apply list_elem_of_bind. exists row. split; [|done].
    apply list_elem_of_fmap. by exists g.
  - apply list_elem_of_fmap. by exists row.
Qed.

(** The person ids of the cast rows are ids of the people table, and their
    movie ids are ids of collected records. *)
Lemma movie_cast_refs raw r :
  r ∈ movie_cast_list (people_pass raw) →
  mc_person_id r ∈ (all_people (people_pass raw)).*1
  ∧ mc_movie_id r ∈ tmdb_id <$> raw.
Proof.
  unfold people_pass. rewrite people_fold_cast, people_fold_people. simpl.
  intros Hr. apply list_elem_of_bind in Hr as (row & Hr & Hrow).
  unfold cast_rows in Hr. apply list_elem_of_fmap in Hr as (a & -> & Ha).
  simpl. split.
  - apply dict_add_all_keys. right. unfold people_stream.
    apply list_elem_of_fmap. exists (cast_entry a). split; [done|].
    apply list_elem_of_bind. exists row. split; [|done].
    unfold people_of. apply elem_of_app. right.
    apply list_elem_of_fmap. by exists a.
  - apply list_elem_of_fmap. by exists row.
Qed.

(** C1, at a dataset of two movies of which the second has no director:
    the transform succeeds, the second movie is not in the movies table,
    and both junction tables still hold rows with its id. *)
Theorem junction_rows_of_dropped_movie :
  transform parse_iso [two_directors; no_director] = inr sample_tables
  ∧ mv_id <$> movies_df sample_tables = [1]
  ∧ MovieGenreRow 2 18 ∈ movie_genres_df sample_tables
  ∧ MovieCastRow 2 9 "Friend" ∈ movie_cast_df sample_tables
  ∧ 2 ∉ mv_id <$> movies_df sample_tables.
Proof.
  split; [reflexivity|]. split; [reflexivity|].
  split_and!.
  - simpl. apply list_elem_of_In. simpl. tauto.
  - simpl. apply list_elem_of_In. simpl. tauto.
  - simpl. intros H. apply list_elem_of_singleton in H. discriminate.
Qed.

Lemma directors_fold_Some st raw k d :
  directors_map (foldl people_row st raw) !! k = Some d →
  directors_map st !! k = Some d
  ∨ ∃ row, row ∈ raw ∧ tmdb_id row = k ∧ is_Some (find_director (crew row)).
Proof.
  revert st. induction raw as [|row raw IH]; intros st; simpl; [by left|].
  intros H. apply IH in H as [H|(row' & Hin & Hk & Hd)].
  - rewrite people_row_spec in H. simpl in H.
    destruct (find_director (crew row)) as [m|] eqn:Hf; [|by left].
    destruct (decide (tmdb_id row = k)) as [<-|Hne].
    + right. exists row. rewrite Hf. split_and!; [apply list_elem_of_here|done|by eexists].
    + left. by rewrite lookup_insert_ne in H.
  - right. exists row'. split_and!; [by apply list_elem_of_further|done..].
Qed.

(** C2. In the tables of a successful transform, a movie none of whose
    records (the records carrying its id) has a crew member with job
    "Director" has no row in the movies table, and every row of the movies
    table has a director id. *)
Theorem no_director_excluded
    (parse_datetime : string → py_error + option date)
    (raw : list raw_movie) (t : tables) :
  transform parse_datetime raw = inr t →
  (∀ row, row ∈ raw →
     (∀ row', row' ∈ raw → tmdb_id row' = tmdb_id row →
              find_director (crew row') = None) →
     tmdb_id row ∉ mv_id <$> movies_df t)
  ∧ (∀ m, m ∈ movies_df t → is_Some (mv_director_id m)).
Proof.
  intros Ht. apply transform_inr in Ht as (_ & _ & _ & _ & _ & ms & Hb & Hm).
  rewrite Hm. split.
  - intros row Hrow Hnone Hin.
    apply list_elem_of_fmap in Hin as (m & Hid & Hin).
    apply list_elem_of_filter in Hin as [[d Hd] Hin].
    apply build_movies_director in Hb.
    apply list_elem_of_lookup in Hin as [i Hi].
    destruct (Forall2_lookup_r _ _ _ _ _ Hb Hi) as (row0 & _ & Hmid & _ & Hdir).
    rewrite Hd, <- Hmid, <- Hid in Hdir. symmetry in Hdir.
    apply directors_fold_Some in Hdir as [Hdir|(row' & Hin' & Hk & Hsome)].
    + simpl in Hdir. by rewrite lookup_empty in Hdir.
    + rewrite (Hnone row' Hin' Hk) in Hsome. by destruct Hsome.
  - intros m Hin. by apply list_elem_of_filter in Hin as [? _].
Qed.

Lemma no_director_excluded_witness :
  (2 ∉ mv_id <$> movies_df sample_tables)
  ∧ (∀ m, m ∈ movies_df sample_tables → is_Some (mv_director_id m)).
Proof.
  destruct (no_director_excluded parse_iso [two_directors; no_director]
              sample_tables eq_refl) as [Hex Hdir].
  split; [|exact Hdir].
  apply (Hex no_director).
  - apply list_elem_of_further, list_elem_of_here.
  - intros row' Hin Hid.
    apply elem_of_cons in Hin as [->|Hin]; [discriminate Hid|].
    apply list_elem_of_singleton in Hin as ->. reflexivity.
Defined.

(** C2 as it is worded fails when two records carry the same id: the
    record without a director is given the director of the other one and
    stays in the movies table. *)
Lemma record_without_director_kept :
  ∃ t, transform parse_iso [two_directors; same_id_no_director] = inr t
       ∧ find_director (crew same_id_no_director) = None
       ∧ {| mv_id := 1; mv_title := Some "Alpha again"; mv_overview := None;
            mv_release_date := Some (Date 1994 9 23);
            mv_vote_average := None; mv_director_id := Some 5 |}
         ∈ movies_df t.
Proof.
  eexists. split; [reflexivity|]. split; [reflexivity|].
  simpl. apply list_elem_of_further, list_elem_of_here.
Qed.

End NormalizerSpec.

(** ** Loader *)

Module LoaderSpec.
Import Normalizer Loader LoadVocabulary.

Lemma load_tables_written writable dfs db :
  (load_tables writable dfs db).1 = insert_all db (written writable dfs).
Proof.
  revert db. induction dfs as [|[name df] dfs IH]; intros db; simpl; [done|].
  unfold to_sql. destruct (writable name); simpl; [apply IH|done].
Qed.

Lemma insert_all_union (db : gmap string table) dfs :
  insert_all db dfs = list_to_map (reverse dfs) ∪ db.
Proof.
  revert db. induction dfs as [|[name df] dfs IH]; intros db; simpl.
  - by rewrite (left_id_L ∅ (∪)).
  - rewrite IH, reverse_cons, list_to_map_app. simpl.
    rewrite <- (assoc_L (∪)). f_equal.
    rewrite insert_empty. by rewrite <- insert_union_singleton_l.
Qed.

Lemma insert_all_idemp (db : gmap string table) dfs :
  insert_all (insert_all db dfs) dfs = insert_all db dfs.
Proof.
  rewrite !insert_all_union, (assoc_L (∪)). f_equal. apply (idemp_L (∪)).
Qed.

(** C8. Loading the five tables into a store that has just been loaded
    with them gives the store of the first load, whatever the store held
    before and whichever writes the store accepts; replacing a table by
    itself changes nothing. *)
Theorem load_twice_same_store (writable : string → bool) (t : tables)
    (db : gmap string table) :
  (load writable t (load writable t db).1).1 = (load writable t db).1
  ∧ (load writable t (load writable t db).1).2 = (load writable t db).2.
Proof.
  unfold load. split.
  - rewrite !load_tables_written. apply insert_all_idemp.
  - simpl. unfold to_sql.
    repeat (match goal with |- context [writable ?n] =>
              destruct (writable n); simpl; [|done] end).
    done.
Qed.

End LoaderSpec.

(** ** Reporter *)

Module ReporterSpec.
Import Normalizer Reporter Vocabulary BatchVocabulary Examples.

(** *** The fifth query *)

Lemma year_text_check :
  forallb (λ y, bool_decide (where_after_2001
                               (MovieRow 0 None None (Some (Date y 0 0))
                                         None None)
                             = bool_decide (2001 < y)))
          (seqZ 0 10000) = true.
Proof. vm_compute. reflexivity. Qed.

Lemma where_after_2001_year m d :
  mv_release_date m = Some d → 0 ≤ year d ≤ 9999 →
  where_after_2001 m = bool_decide (2001 < year d).
Proof.
  intros Hd Hy.
  pose proof year_text_check as H.
  rewrite forallb_forall in H.
  specialize (H (year d)).
  rewrite bool_decide_eq_true in H.
  rewrite <- H.
  - unfold where_after_2001. rewrite Hd. destruct d. reflexivity.
  - apply list_elem_of_In, elem_of_seqZ. lia.
Qed.

Lemma where_after_2001_NULL m :
  mv_release_date m = None → where_after_2001 m = false.
Proof. intros H. unfold where_after_2001. by rewrite H. Qed.

Lemma where_after_2001_iff m :
  (∀ d, mv_release_date m = Some d → 0 ≤ year d ≤ 9999) →
  where_after_2001 m ↔ released_after_2001 m.
Proof.
  intros Hy. unfold released_after_2001.
  destruct (mv_release_date m) as [d|] eqn:Hd.
  - rewrite (where_after_2001_year m d Hd (Hy d eq_refl)).
    apply bool_decide_spec.
  - by rewrite where_after_2001_NULL.
Qed.

Lemma filter_where_after_2001 (movies : list movie_row) :
  (∀ m d, m ∈ movies → mv_release_date m = Some d → 0 ≤ year d ≤ 9999) →
  filter (λ m, where_after_2001 m) movies = filter released_after_2001 movies.
Proof.
  induction movies as [|m movies IH]; intros Hy; [done|].
  rewrite !filter_cons, IH.
  - assert (Hm : where_after_2001 m ↔ released_after_2001 m).
    { apply where_after_2001_iff. intros d. apply Hy, list_elem_of_here. }
    repeat case_decide; tauto || done.
  - intros m' d Hin. apply Hy. by apply list_elem_of_further.
Qed.

#[local] Instance release_desc_total : Total release_desc.
Proof.
  intros m1 m2. unfold release_desc, date_le.
  destruct (mv_release_date m1), (mv_release_date m2); try tauto. lia.
Qed.

#[local] Instance release_desc_trans : Transitive release_desc.
Proof.
  intros m1 m2 m3. unfold release_desc, date_le.
  destruct (mv_release_date m1), (mv_release_date m2), (mv_release_date m3);
    try tauto. lia.
Qed.

(** C7. On a store whose release dates have years that [strftime] can
    print (0 to 9999), the fifth query returns the title and release date
    of exactly the rows whose release year is greater than 2001, latest
    release first.  With releases dated 2000-01-01, 2001-12-31 and
    2002-06-15 only the last row is returned. *)
Theorem query5_after_2001 (movies : list movie_row) :
  (∀ m d, m ∈ movies → mv_release_date m = Some d → 0 ≤ year d ≤ 9999) →
  (∃ rows,
     eval_query5 movies = (λ m, (mv_title m, mv_release_date m)) <$> rows
     ∧ rows ≡ₚ filter released_after_2001 movies
     ∧ StronglySorted release_desc rows)
  ∧ (∀ a b c : movie_row,
       mv_release_date a = Some (Date 2000 1 1) →
       mv_release_date b = Some (Date 2001 12 31) →
       mv_release_date c = Some (Date 2002 6 15) →
       eval_query5 [a; b; c] = [(mv_title c, Some (Date 2002 6 15))]).
Proof.
  intros Hy. split.
  - exists (merge_sort release_desc (filter (λ m, where_after_2001 m) movies)).
    split_and!.
    + reflexivity.
    + rewrite merge_sort_Permutation. by rewrite filter_where_after_2001.
    + apply StronglySorted_merge_sort; apply _.
  - intros [] [] []. simpl. intros -> -> ->. reflexivity.
Qed.

Lemma query5_after_2001_witness :
  eval_query5 sample_movies = [(Some "C", Some (Date 2002 6 15))].
Proof.
  destruct (query5_after_2001 sample_movies) as [_ H].
  - intros m d Hin Hd.
    repeat (apply elem_of_cons in Hin as [->|Hin];
            [injection Hd as <-; simpl; lia|]).
    by apply elem_of_nil in Hin.
  - apply (H (MovieRow 10 (Some "A") None (Some (Date 2000 1 1)) None (Some 5))
             (MovieRow 11 (Some "B") None (Some (Date 2001 12 31)) None
                       (Some 5))
             (MovieRow 12 (Some "C") None (Some (Date 2002 6 15)) None
                       (Some 6)));
      reflexivity.
Defined.


(** *** The batch *)

Lemma queries_NoDup : NoDup queries.*2.
Proof. by apply (bool_decide_unpack _). Qed.

Section Batch.
Variable read_sql_query : query → string + dataframe.

Lemma run_queries_spec qs st :
  executed (run_queries read_sql_query qs st).1
  = executed st ++ attempted read_sql_query qs.*2
  ∧ conn_open (run_queries read_sql_query qs st).1 = conn_open st
  ∧ (run_queries read_sql_query qs st).2 = first_error read_sql_query qs.*2.
Proof.
  revert st. induction qs as [|[title q] qs IH]; intros st; simpl.
  - by rewrite app_nil_r.
  - destruct (read_sql_query q) as [e|df]; simpl; [done|].
    destruct (IH (print (match df with [] => OutNoResults | _ => OutFrame df end)
                    {| conn_open := conn_open st;
                       executed := executed st ++ [q];
                       printed := printed st ++ [OutTitle title] |}))
      as (He & Hc & Hx).
    rewrite He, Hc, Hx. simpl. by rewrite <- (assoc_L (++)).
Qed.

Lemma attempted_stops pre q post e :
  read_sql_query q = inl e →
  ∀ q', q' ∈ attempted read_sql_query (pre ++ q :: post) → q' ∈ pre ++ [q].
Proof.
  intros Hq. induction pre as [|p pre IH]; simpl; intros q' Hin.
  - rewrite Hq in Hin. done.
  - apply elem_of_cons in Hin as [->|Hin]; [apply list_elem_of_here|].
    apply list_elem_of_further.
    destruct (read_sql_query p); [by apply elem_of_nil in Hin | by apply IH].
Qed.

Lemma attempted_until pre q post e :
  Forall (λ p, ∃ df, read_sql_query p = inr df) pre →
  read_sql_query q = inl e →
  attempted read_sql_query (pre ++ q :: post) = pre ++ [q]
  ∧ first_error read_sql_query (pre ++ q :: post) = Some e.
Proof.
  intros Hpre Hq. induction Hpre as [|p pre [df Hp] _ [IH1 IH2]]; simpl.
  - by rewrite Hq.
  - by rewrite Hp, IH1, IH2.
Qed.

Lemma first_error_some qs q e :
  q ∈ qs → read_sql_query q = inl e → is_Some (first_error read_sql_query qs).
Proof.
  intros Hin Hq. induction qs as [|p qs IH]; [by apply elem_of_nil in Hin|].
  simpl. destruct (read_sql_query p) eqn:Hp; [by eexists|].
  apply elem_of_cons in Hin as [->|Hin]; [congruence | by apply IH].
Qed.

Lemma report_connected :
  report None read_sql_query
  = print OutClosed
      {| conn_open := false;
         executed := attempted read_sql_query queries.*2;
         printed :=
           printed (run_queries read_sql_query queries
                      (print OutConnected
                         {| conn_open := true; executed := [];
                            printed := [] |})).1
           ++ match first_error read_sql_query queries.*2 with
              | Some e => [OutError e]
              | None => []
              end |}.
Proof.
  unfold report. generalize queries. intros qs.
  set (st1 := print OutConnected
                {| conn_open := true; executed := []; printed := [] |}).
  destruct (run_queries_spec qs st1) as (He & _ & Hx).
  destruct (run_queries read_sql_query qs st1) as [st2 exn].
  cbn [fst snd] in *. subst exn. change (executed st1) with (@nil query) in He.
  rewrite app_nil_l in He.
  destruct (first_error read_sql_query qs.*2); cbn; rewrite He; [done|].
  by rewrite app_nil_r.
Qed.

End Batch.

(** C9. When a query of the batch raises, none of the queries after it is
    sent to the store and an error message is printed; if the queries before
    it succeeded, the queries sent are exactly those up to it and the
    message printed is its own.  In every run the connection is not open
    when the phase ends, and whenever it was opened the last thing the
    phase does is close it. *)
Theorem report_aborts_and_closes (connect : option string)
    (read_sql_query : query → string + dataframe) :
  (∀ pre title q post e,
     connect = None →
     queries = pre ++ (title, q) :: post →
     read_sql_query q = inl e →
     (∀ q', q' ∈ post.*2 → q' ∉ executed (report connect read_sql_query))
     ∧ (∃ e', OutError e' ∈ printed (report connect read_sql_query))
     ∧ (Forall (λ p, ∃ df, read_sql_query p.2 = inr df) pre →
        executed (report connect read_sql_query) = pre.*2 ++ [q]
        ∧ OutError e ∈ printed (report connect read_sql_query)))
  ∧ conn_open (report connect read_sql_query) = false
  ∧ (connect = None →
     last (printed (report connect read_sql_query)) = Some OutClosed).
Proof.
  split_and!.
  - intros pre title q post e -> Hqs Hq.
    rewrite report_connected. cbn [executed printed print].
    assert (Hsplit : queries.*2 = pre.*2 ++ q :: post.*2).
    { rewrite Hqs, fmap_app. done. }
    pose proof queries_NoDup as Hnd.
    rewrite Hsplit in *.
    split_and!.
    + intros q' Hpost Hatt.
      apply (attempted_stops _ _ _ _ _ Hq) in Hatt.
      apply NoDup_app in Hnd as (_ & Hdisj & Hnd).
      apply NoDup_cons in Hnd as [Hq' _].
      apply elem_of_app in Hatt as [Hatt|Hatt].
      * apply (Hdisj q' Hatt). by apply list_elem_of_further.
      * apply list_elem_of_singleton in Hatt as ->. done.
    + destruct (first_error_some read_sql_query (pre.*2 ++ q :: post.*2) q e)
        as [e' He']; [|done|].
      { apply elem_of_app. right. apply list_elem_of_here. }
      exists e'. rewrite He'. apply elem_of_app. left. apply elem_of_app. right.
      apply list_elem_of_here.
    + intros Hpre.
      destruct (attempted_until read_sql_query pre.*2 q post.*2 e) as [Ha Hf];
        [|done|].
      { apply Forall_fmap. eapply Forall_impl; [exact Hpre|]. done. }
      rewrite Ha, Hf. split; [done|].
      apply elem_of_app. left. apply elem_of_app. right. apply list_elem_of_here.
  - destruct connect as [e|]; [done|]. by rewrite report_connected.
  - intros ->. rewrite report_connected. cbn [printed print]. apply last_snoc.
Qed.

Lemma report_aborts_and_closes_witness :
  executed (report None people_table_missing)
  = [query1_top_movies; query2_movies_per_genre; query3_top_directors]
  ∧ OutError "no such table: people" ∈ printed (report None people_table_missing)
  ∧ last (printed (report None people_table_missing)) = Some OutClosed.
Proof.
  destruct (report_aborts_and_closes None people_table_missing)
    as (Habort & _ & Hlast).
  destruct (Habort (take 2 queries) "3. The 5 most prolific directors"%string
              query3_top_directors (drop 3 queries) "no such table: people"%string
              eq_refl eq_refl eq_refl) as (_ & _ & Hexact).
  destruct Hexact as [He Hp].
  { repeat constructor; simpl; eexists; reflexivity. }
  split_and!; [exact He | exact Hp | by apply Hlast].
Defined.

End ReporterSpec.

(** * Further properties *)

(** ** Fetcher: requests and bounds *)

Module FetcherMore.
Import Fetcher ExtraVocabulary Examples FetcherSpec.

Lemma fetch_top_movies_log (net : network) (lg : log) :
  (fetch_top_movies net lg).2
  = lg ++ (ReqTopRated
             <$> pages_requested
                   (status_code (get_top_rated net (length lg) 1))
                   (status_code (get_top_rated net (S (length lg)) 2))).
Proof.
  unfold fetch_top_movies, pages_requested. simpl.
  rewrite !length_app. simpl.
  replace (length lg + 1)%nat with (S (length lg)) by lia.
  destruct (status_code (get_top_rated net (length lg) 1) =? 200); [|done].
  destruct (status_code (get_top_rated net (S (length lg)) 2) =? 200);
    simpl; [|by rewrite <- (assoc_L (++))].
  destruct (status_code _ =? 200); simpl; by rewrite <- !(assoc_L (++)).
Qed.

(** X1. The listing pages are requested in the order 1, 2, 3 and no page
    is requested after one that did not answer 200; nothing else is
    requested. *)
Theorem fetch_top_movies_requests (net : network) (lg : log) :
  (fetch_top_movies net lg).2
  = lg ++ (ReqTopRated
             <$> pages_requested
                   (status_code (get_top_rated net (length lg) 1))
                   (status_code (get_top_rated net (S (length lg)) 2))).
Proof. apply fetch_top_movies_log. Qed.

(** X2. [fetch_movie_details] always issues the detail request and then
    the credits request, also when the first one fails, and it returns
    either both payloads (exactly when both answers are 200) or neither. *)
Theorem fetch_movie_details_both_or_none (net : network) (mid : Z) (lg : log) :
  let d := get_details net (length lg) mid in
  let c := get_credits net (S (length lg)) mid in
  (fetch_movie_details net mid lg).2 = lg ++ [ReqDetails mid; ReqCredits mid]
  ∧ ((status_code d = 200 ∧ status_code c = 200
      ∧ (fetch_movie_details net mid lg).1 = (Some (json d), Some (json c)))
     ∨ ((status_code d ≠ 200 ∨ status_code c ≠ 200)
        ∧ (fetch_movie_details net mid lg).1 = (None, None))).
Proof.
  intros d c. unfold fetch_movie_details.
  rewrite length_app. simpl.
  replace (length lg + 1)%nat with (S (length lg)) by lia.
  fold d c.
  destruct (Z.eqb_spec (status_code d) 200) as [Hd|Hd];
    destruct (Z.eqb_spec (status_code c) 200) as [Hc|Hc]; simpl;
    (split; [by rewrite <- (assoc_L (++))|]); auto.
Qed.

Lemma extract_step_requests net ms lg s :
  (extract_step net (ms, lg) s).2 = lg ++ requests_for s
  ∧ ms `prefix_of` (extract_step net (ms, lg) s).1
  ∧ (length (extract_step net (ms, lg) s).1 ≤ S (length ms))%nat.
Proof.
  unfold extract_step, requests_for.
  destruct (s_id s) as [mid|]; simpl.
  2:{ rewrite app_nil_r. split_and!; [done|done|lia]. }
  destruct (negb (mid =? 0)); simpl.
  2:{ rewrite app_nil_r. split_and!; [done|done|lia]. }
  unfold fetch_movie_details.
  destruct (_ && _); simpl.
  - destruct (truthy_credits _); simpl.
    + rewrite <- (assoc_L (++)). split_and!; [done|by apply prefix_app_r|].
      rewrite length_app. simpl. lia.
    + rewrite <- (assoc_L (++)). split_and!; [done|done|lia].
  - rewrite <- (assoc_L (++)). split_and!; [done|done|lia].
Qed.

Lemma extract_loop_requests net l ms lg :
  (extract_loop net (ms, lg) l).2 = lg ++ (l ≫= requests_for)
  ∧ ms `prefix_of` (extract_loop net (ms, lg) l).1
  ∧ (length (extract_loop net (ms, lg) l).1 ≤ length ms + length l)%nat.
Proof.
  unfold extract_loop. revert ms lg.
  induction l as [|s l IH]; intros ms lg.
  - simpl. rewrite app_nil_r. split_and!; [done|done|lia].
  - cbn [foldl].
    destruct (extract_step_requests net ms lg s) as (H1 & H2 & H3).
    destruct (extract_step net (ms, lg) s) as [ms' lg'].
    cbn [fst snd] in H1, H2, H3. subst lg'.
    destruct (IH ms' (lg ++ requests_for s)) as (I1 & I2 & I3).
    split_and!.
    + rewrite I1. cbn. by rewrite <- (assoc_L (++)).
    + by etrans.
    + cbn [length]. lia.
Qed.

(** X3. The extract loop issues, for every summary with a usable id and in
    listing order, a detail request followed by a credits request, whether
    or not earlier fetches failed; it only ever appends to
    [all_movies_data], at most one record per summary. *)
Theorem extract_loop_log (net : network) (l : list summary)
    (ms : list raw_movie) (lg : log) :
  (extract_loop net (ms, lg) l).2 = lg ++ (l ≫= requests_for)
  ∧ ms `prefix_of` (extract_loop net (ms, lg) l).1
  ∧ (length (extract_loop net (ms, lg) l).1 ≤ length ms + length l)%nat.
Proof. apply extract_loop_requests. Qed.

Lemma requests_for_length s : (length (requests_for s) ≤ 2)%nat.
Proof.
  unfold requests_for. destruct (s_id s); simpl; [|lia].
  destruct (negb _); simpl; lia.
Qed.

Lemma bind_requests_length l :
  (length (l ≫= requests_for) ≤ 2 * length l)%nat.
Proof.
  induction l as [|s l IH]; [simpl; lia|].
  rewrite bind_cons, length_app. pose proof (requests_for_length s).
  cbn [length]. lia.
Qed.

Lemma fetch_pages_log_length net pages acc lg :
  (length (fetch_pages net pages acc lg).2 ≤ length lg + length pages)%nat.
Proof.
  revert acc lg. induction pages as [|p pages IH]; intros acc lg; simpl; [lia|].
  destruct (status_code _ =? 200).
  - etrans; [apply IH|]. rewrite length_app. simpl. lia.
  - simpl. rewrite length_app. simpl. lia.
Qed.

(** X4. A run of the extract phase collects at most 50 movies and issues at
    most 103 requests: three listing pages and two requests per listed
    movie. *)
Theorem extract_bounds (net : network) :
  (length (extract net).1 ≤ 50)%nat ∧ (length (extract net).2 ≤ 103)%nat.
Proof.
  unfold extract, fetch_top_movies.
  pose proof (fetch_pages_length net [1; 2; 3] [] []) as Hlen.
  pose proof (fetch_pages_log_length net [1; 2; 3] [] []) as Hlog.
  destruct (fetch_pages net [1; 2; 3] [] []) as [top lg]. simpl in Hlen, Hlog.
  destruct top as [|s top]; [simpl; lia|].
  destruct (extract_loop_requests net (s :: top) [] lg) as (H1 & _ & H3).
  rewrite H1, length_app.
  pose proof (bind_requests_length (s :: top)).
  simpl in *. lia.
Qed.

Lemma fetch_pages_failed net lg :
  status_code (get_top_rated net (length lg) 1) ≠ 200
  ∨ status_code (get_top_rated net (S (length lg)) 2) ≠ 200
  ∨ status_code (get_top_rated net (S (S (length lg))) 3) ≠ 200 →
  (fetch_top_movies net lg).1 = [].
Proof.
  unfold fetch_top_movies. simpl. rewrite !length_app. simpl.
  replace (length lg + 1)%nat with (S (length lg)) by lia.
  replace (S (length lg) + 1)%nat with (S (S (length lg))) by lia.
  destruct (Z.eqb_spec (status_code (get_top_rated net (length lg) 1)) 200);
    [|done].
  destruct (Z.eqb_spec (status_code (get_top_rated net (S (length lg)) 2)) 200);
    [|done].
  destruct (Z.eqb_spec
              (status_code (get_top_rated net (S (S (length lg))) 3)) 200);
    [|done].
  intros [?|[?|?]]; done.
Qed.

Lemma extract_nil_of_failed net :
  status_code (get_top_rated net 0 1) ≠ 200
  ∨ status_code (get_top_rated net 1 2) ≠ 200
  ∨ status_code (get_top_rated net 2 3) ≠ 200 →
  (extract net).1 = []
  ∧ (extract net).2
    = ReqTopRated <$> pages_requested (status_code (get_top_rated net 0 1))
                                      (status_code (get_top_rated net 1 2)).
Proof.
  intros Hfail. unfold extract.
  pose proof (fetch_pages_failed net [] Hfail) as Hnil.
  pose proof (fetch_top_movies_log net []) as Hlog.
  destruct (fetch_top_movies net []) as [top lg]. simpl in Hnil, Hlog.
  by subst top.
Qed.

(** X5. When one of the three listing pages does not answer 200, the
    extract phase collects nothing and issues no detail or credits request
    at all. *)
Theorem extract_failed_listing (net : network) :
  status_code (get_top_rated net 0 1) ≠ 200
  ∨ status_code (get_top_rated net 1 2) ≠ 200
  ∨ status_code (get_top_rated net 2 3) ≠ 200 →
  (extract net).1 = []
  ∧ (∀ r, r ∈ (extract net).2 → ∃ page, r = ReqTopRated page).
Proof.
  intros Hfail. destruct (extract_nil_of_failed net Hfail) as [Hnil Hlog].
  split; [done|]. intros r Hr. rewrite Hlog in Hr.
  apply list_elem_of_fmap in Hr as (page & -> & _). by exists page.
Qed.

Lemma extract_failed_listing_witness :
  (extract net_page2_down).1 = []
  ∧ (∀ r, r ∈ (extract net_page2_down).2 → ∃ page, r = ReqTopRated page).
Proof.
  apply (extract_failed_listing net_page2_down).
  right. left. simpl. lia.
Defined.

End FetcherMore.

(** ** Normalizer: tables, keys and errors *)

Module NormalizerMore.
Import Normalizer Vocabulary Examples NormalizerSpec.




Lemma build_movies_ids parse dmap raw ms :
  build_movies parse dmap raw = inr ms → mv_id <$> ms = tmdb_id <$> raw.
Proof.
  intros Hb. apply build_movies_director in Hb.
  induction Hb as [|row m raw ms (H1 & _) _ IH]; [done|].
  rewrite !fmap_cons. by rewrite H1, IH.
Qed.


Lemma transform_keys_NoDup parse raw t :
  transform parse raw = inr t →
  NoDup (genres_df t).*1 ∧ NoDup (people_df t).*1.
Proof.
  intros Ht. apply transform_inr in Ht as (_ & Hg & _ & Hp & _).
  rewrite Hg, Hp, genres_pass_spec. unfold people_pass.
  rewrite people_fold_people. simpl.
  split; apply dict_add_all_NoDup; apply NoDup_nil_2.
Qed.



(** X7. In the tables of a successful transform every movie_genres row
    carries the id of a row of the genres table, every movie_cast row the
    id of a row of the people table, and the movie id of either is the id
    of a collected record. *)
Theorem junction_rows_reference_names
    (parse_datetime : string → py_error + option date)
    (raw : list raw_movie) (t : tables) :
  transform parse_datetime raw = inr t →
  (∀ r, r ∈ movie_genres_df t →
        mg_genre_id r ∈ (genres_df t).*1 ∧ mg_movie_id r ∈ tmdb_id <$> raw)
  ∧ (∀ r, r ∈ movie_cast_df t →
          mc_person_id r ∈ (people_df t).*1 ∧ mc_movie_id r ∈ tmdb_id <$> raw).
Proof.
  intros Ht.
  apply transform_inr in Ht as (_ & Hg & Hmg & Hp & Hmc & _).
  rewrite Hg, Hmg, Hp, Hmc. split; intros r Hr.
  - by apply movie_genres_refs.
  - by apply movie_cast_refs.
Qed.

Lemma junction_rows_reference_names_witness :
  mg_genre_id (MovieGenreRow 2 35) ∈ (genres_df sample_tables).*1
  ∧ mg_movie_id (MovieGenreRow 2 35) ∈ tmdb_id <$> [two_directors; no_director].
Proof.
  apply (proj1 (junction_rows_reference_names parse_iso
                  [two_directors; no_director] sample_tables eq_refl)).
  apply list_elem_of_further, list_elem_of_further, list_elem_of_here.
Defined.

(** X8. The genres pass appends one movie_genres row per entry of every
    movie's genre list, in order and whether or not the genre was seen
    before: the table has as many rows as the genre lists have entries, and
    a movie without genres contributes none. *)
Theorem movie_genres_rows_per_entry (raw : list raw_movie) :
  (genres_pass raw).2 = raw ≫= genre_rows
  ∧ length (genres_pass raw).2 = sum_list ((λ row, length (genres row)) <$> raw)
  ∧ (∀ row, genres row = [] → genres_row ([], []) row = ([], [])).
Proof.
  rewrite genres_pass_spec. simpl. split_and!; [done| |].
  - induction raw as [|row raw IH]; [done|].
    rewrite bind_cons, length_app, IH. simpl.
    unfold genre_rows. by rewrite length_fmap.
  - intros row Hrow. unfold genres_row. by rewrite Hrow.
Qed.






Lemma directors_fold_mono raw st k :
  is_Some (directors_map st !! k) →
  is_Some (directors_map (foldl people_row st raw) !! k).
Proof.
  revert st. induction raw as [|row raw IH]; intros st Hk; simpl; [done|].
  apply IH. rewrite people_row_spec. simpl.
  destruct (find_director (crew row)); [|done].
  destruct (decide (tmdb_id row = k)) as [<-|Hne].
  - rewrite lookup_insert_eq. by eexists.
  - by rewrite lookup_insert_ne.
Qed.

Lemma directors_fold_has raw st row :
  row ∈ raw → is_Some (find_director (crew row)) →
  is_Some (directors_map (foldl people_row st raw) !! tmdb_id row).
Proof.
  revert st. induction raw as [|row' raw IH]; intros st Hin Hd.
  - by apply elem_of_nil in Hin.
  - simpl. apply elem_of_cons in Hin as [<-|Hin]; [|by apply IH].
    apply directors_fold_mono. rewrite people_row_spec. simpl.
    destruct Hd as [m ->]. rewrite lookup_insert_eq. by eexists.
Qed.



Lemma kept_if_director parse raw t row :
  transform parse raw = inr t → row ∈ raw →
  is_Some (find_director (crew row)) →
  tmdb_id row ∈ mv_id <$> movies_df t.
Proof.
  intros Ht Hin Hd.
  apply transform_inr in Ht as (_ & _ & _ & _ & _ & ms & Hb & Hms).
  rewrite Hms.
  pose proof (build_movies_director _ _ _ _ Hb) as HF.
  apply list_elem_of_lookup in Hin as [i Hi].
  destruct (Forall2_lookup_l _ _ _ _ _ HF Hi) as (m & Hm & H1 & _ & H3).
  apply list_elem_of_fmap. exists m. split; [done|].
  apply list_elem_of_filter. split.
  - rewrite H3. apply directors_fold_has; [|done].
    apply list_elem_of_lookup. by exists i.
  - apply list_elem_of_lookup. by exists i.
Qed.

(** X10. In the tables of a successful transform every record whose crew
    has a director has a row in the movies table, and the rows of the
    movies table follow the order in which the records were collected. *)
Theorem directed_movies_kept_in_order
    (parse_datetime : string → py_error + option date)
    (raw : list raw_movie) (t : tables) :
  transform parse_datetime raw = inr t →
  (∀ row, row ∈ raw → is_Some (find_director (crew row)) →
          tmdb_id row ∈ mv_id <$> movies_df t)
  ∧ (mv_id <$> movies_df t) `sublist_of` (tmdb_id <$> raw).
Proof.
  intros Ht. split.
  - intros row Hin Hd. exact (kept_if_director _ _ _ _ Ht Hin Hd).
  - apply transform_inr in Ht as (_ & _ & _ & _ & _ & ms & Hb & Hms).
    rewrite Hms, <- (build_movies_ids _ _ _ _ Hb).
    apply fmap_sublist, sublist_filter.
Qed.

Lemma directed_movies_kept_in_order_witness :
  1 ∈ mv_id <$> movies_df sample_tables.
Proof.
  refine (proj1 (directed_movies_kept_in_order parse_iso
                   [two_directors; no_director] sample_tables eq_refl)
                two_directors _ _).
  - apply list_elem_of_here.
  - by eexists.
Defined.



(** X12. When every collected record has a director, every row of the two
    junction tables carries the id of a row of the movies table. *)
Theorem junction_movies_exist_when_all_directed
    (parse_datetime : string → py_error + option date)
    (raw : list raw_movie) (t : tables) :
  transform parse_datetime raw = inr t →
  (∀ row, row ∈ raw → is_Some (find_director (crew row))) →
  (∀ r, r ∈ movie_genres_df t → mg_movie_id r ∈ mv_id <$> movies_df t)
  ∧ (∀ r, r ∈ movie_cast_df t → mc_movie_id r ∈ mv_id <$> movies_df t).
Proof.
  intros Ht Hall.
  assert (Hids : ∀ k, k ∈ tmdb_id <$> raw → k ∈ mv_id <$> movies_df t).
  { intros k Hk. apply list_elem_of_fmap in Hk as (row & -> & Hin).
    apply (kept_if_director _ _ _ _ Ht Hin), Hall, Hin. }
  pose proof Ht as Ht'.
  apply transform_inr in Ht' as (_ & _ & Hmg & _ & Hmc & _).
  rewrite Hmg, Hmc. split; intros r Hr; apply Hids.
  - by apply movie_genres_refs.
  - by apply movie_cast_refs.
Qed.

Lemma junction_movies_exist_when_all_directed_witness :
  ∃ t, transform parse_iso [two_directors; twelve_cast] = inr t
       ∧ (∀ r, r ∈ movie_cast_df t → mc_movie_id r ∈ mv_id <$> movies_df t).
Proof.
  eexists. split; [reflexivity|].
  refine (proj2 (junction_movies_exist_when_all_directed parse_iso
                   [two_directors; twelve_cast] _ eq_refl _)).
  intros row Hin.
  apply elem_of_cons in Hin as [->|Hin]; [by eexists|].
  apply list_elem_of_singleton in Hin as ->. by eexists.
Defined.

End NormalizerMore.

(** ** Loader and the script as a whole *)

Module LoaderMore.
Import Fetcher Normalizer Loader LoadVocabulary Pipeline Examples.
Import LoaderSpec.


Lemma load_tables_all_writable writable dfs db :
  Forall (λ p, writable p.1 = true) dfs →
  load_tables writable dfs db = (insert_all db dfs, None).
Proof.
  intros H. revert db. induction H as [|[n df] dfs Hw _ IH]; intros db; simpl;
    [done|].
  unfold to_sql. simpl in Hw. rewrite Hw. apply IH.
Qed.

(** X13. When the store accepts the five writes, the load reports no
    failure, each of the five table names holds the table just written
    whatever it held before, and every other table of the store is left as
    it was. *)
Theorem load_replaces_five_tables (writable : string → bool) (t : tables)
    (db : gmap string table) :
  (∀ name, name ∈ ["movies"; "genres"; "people"; "movie_genres";
                   "movie_cast"]%string → writable name = true) →
  (load writable t db).2 = None
  ∧ (load writable t db).1 !! "movies"%string
    = Some (MoviesTable (movies_df t))
  ∧ (load writable t db).1 !! "genres"%string
    = Some (NamesTable (genres_df t))
  ∧ (load writable t db).1 !! "people"%string
    = Some (NamesTable (people_df t))
  ∧ (load writable t db).1 !! "movie_genres"%string
    = Some (MovieGenresTable (movie_genres_df t))
  ∧ (load writable t db).1 !! "movie_cast"%string
    = Some (MovieCastTable (movie_cast_df t))
  ∧ (∀ name, name ∉ ["movies"; "genres"; "people"; "movie_genres";
                     "movie_cast"]%string →
             (load writable t db).1 !! name = db !! name).
Proof.
  intros Hw. unfold load.
  rewrite load_tables_all_writable.
  2:{ repeat constructor; simpl; apply Hw; set_solver. }
  simpl. split_and!; try done.
  - by simplify_map_eq.
  - by simplify_map_eq.
  - by simplify_map_eq.
  - by simplify_map_eq.
  - by simplify_map_eq.
  - intros name Hn.
    repeat (apply not_elem_of_cons in Hn as [? Hn]).
    by rewrite !lookup_insert_ne.
Qed.

Lemma load_replaces_five_tables_witness :
  (load (λ _, true) sample_tables ∅).2 = None
  ∧ (load (λ _, true) sample_tables ∅).1 !! "people"%string
    = Some (NamesTable (people_df sample_tables)).
Proof.
  destruct (load_replaces_five_tables (λ _, true) sample_tables ∅)
    as (H0 & _ & _ & H3 & _); [done|].
  by split.
Defined.



(** X15. When a listing page does not answer 200 the script ends with
    KeyError in the transform, before the load: the store keeps what it
    held. *)
Theorem etl_failed_listing_keeps_store (net : network)
    (parse_datetime : string → py_error + option date)
    (writable : string → bool) (db : gmap string table) :
  status_code (get_top_rated net 0 1) ≠ 200
  ∨ status_code (get_top_rated net 1 2) ≠ 200
  ∨ status_code (get_top_rated net 2 3) ≠ 200 →
  etl net parse_datetime writable db = (db, Crashed KeyError).
Proof.
  intros Hfail. unfold etl.
  destruct (FetcherMore.extract_nil_of_failed net Hfail) as [Hnil _].
  destruct (extract net) as [ms lg]. simpl in Hnil. by subst ms.
Qed.

Lemma etl_failed_listing_keeps_store_witness :
  etl net_page2_down parse_iso (λ _, true) ∅ = (∅, Crashed KeyError).
Proof.
  apply etl_failed_listing_keeps_store. right. left. simpl. lia.
Defined.




End LoaderMore.

(** ** Reporter: the fifth query and the batch, further *)

Module ReporterMore.
Import Normalizer Reporter Vocabulary BatchVocabulary ExtraVocabulary Examples.
Import ReporterSpec.

Lemma where_after_2001_true m :
  where_after_2001 m = true →
  ∃ d, mv_release_date m = Some d ∧ 2001 < year d ≤ 9999.
Proof.
  intros H. destruct (mv_release_date m) as [d|] eqn:Hd.
  2:{ by rewrite where_after_2001_NULL in H. }
  exists d. split; [done|].
  destruct (decide (0 ≤ year d ≤ 9999)) as [Hy|Hy].
  - rewrite (where_after_2001_year m d Hd Hy) in H.
    apply bool_decide_eq_true in H. lia.
  - unfold where_after_2001 in H. rewrite Hd in H. simpl in H.
    unfold strftime_Y in H. rewrite bool_decide_eq_false_2 in H by done.
    done.
Qed.

(** X17. Whatever the movies table holds, every row the fifth query
    returns comes from a movie whose release date is not NULL and whose
    release year is after 2001 (and at most 9999); the query returns at
    most as many rows as the table has. *)
Theorem query5_only_after_2001 (movies : list movie_row) :
  (∀ row, row ∈ eval_query5 movies →
          ∃ m d, m ∈ movies ∧ row = (mv_title m, Some d)
                 ∧ mv_release_date m = Some d ∧ 2001 < year d ≤ 9999)
  ∧ (length (eval_query5 movies) ≤ length movies)%nat.
Proof.
  unfold eval_query5. split.
  - intros row Hrow. apply list_elem_of_fmap in Hrow as (m & -> & Hm).
    rewrite merge_sort_Permutation in Hm.
    apply list_elem_of_filter in Hm as [Hw Hm].
    apply Is_true_true in Hw.
    destruct (where_after_2001_true m Hw) as (d & Hd & Hy).
    exists m, d. by rewrite Hd.
  - rewrite length_fmap, merge_sort_Permutation. apply length_filter.
Qed.

(** *** The batch *)

Lemma run_queries_printed rsq qs st :
  ∃ body, printed (run_queries rsq qs st).1 = printed st ++ body
          ∧ Forall plain_output body.
Proof.
  revert st. induction qs as [|[title q] qs IH]; intros st; simpl.
  - exists []. by rewrite app_nil_r.
  - destruct (rsq q) as [e|df]; simpl.
    + exists [OutTitle title]. split; [done|]. by repeat constructor.
    + destruct (IH (print (match df with [] => OutNoResults | _ => OutFrame df end)
                      {| conn_open := conn_open st;
                         executed := executed st ++ [q];
                         printed := printed st ++ [OutTitle title] |}))
        as (body & Hb & Hplain).
      exists (OutTitle title
              :: match df with [] => OutNoResults | _ => OutFrame df end
              :: body).
      split.
      * rewrite Hb. simpl. by rewrite <- !(assoc_L (++)).
      * repeat constructor; [by destruct df|done].
Qed.

Lemma report_printed rsq :
  ∃ body, printed (report None rsq)
          = OutConnected :: body
            ++ match first_error rsq queries.*2 with
               | Some e => [OutError e]
               | None => []
               end ++ [OutClosed]
          ∧ Forall plain_output body.
Proof.
  rewrite report_connected. cbn [printed print].
  destruct (run_queries_printed rsq queries
              (print OutConnected
                 {| conn_open := true; executed := []; printed := [] |}))
    as (body & Hb & Hplain).
  exists body. split; [|done]. rewrite Hb. cbn [printed print app].
  by rewrite <- !(assoc_L (++)).
Qed.

Lemma attempted_all rsq qs :
  (∀ q, ∃ df, rsq q = inr df) →
  attempted rsq qs = qs ∧ first_error rsq qs = None.
Proof.
  intros Hok. induction qs as [|q qs [IH1 IH2]]; simpl; [done|].
  destruct (Hok q) as [df ->]. by rewrite IH1, IH2.
Qed.

(** X18. When the connection opens and no query raises, the five queries
    are all sent, in the order of the batch, no error line is printed, and
    the run ends by closing the connection. *)
Theorem report_all_queries_run (read_sql_query : query → string + dataframe) :
  (∀ q, ∃ df, read_sql_query q = inr df) →
  executed (report None read_sql_query)
  = [query1_top_movies; query2_movies_per_genre; query3_top_directors;
     query4_director_avg_rating; query5_movies_after_2001]
  ∧ (∀ e, OutError e ∉ printed (report None read_sql_query))
  ∧ last (printed (report None read_sql_query)) = Some OutClosed.
Proof.
  intros Hok.
  destruct (attempted_all read_sql_query queries.*2 Hok) as [Ha Hf].
  split_and!.
  - rewrite report_connected. cbn [executed print]. by rewrite Ha.
  - intros e He.
    destruct (report_printed read_sql_query) as (body & Hp & Hplain).
    rewrite Hp, Hf in He. simpl in He.
    apply elem_of_cons in He as [?|He]; [done|].
    apply elem_of_app in He as [He|He].
    + rewrite Forall_forall in Hplain. by apply Hplain in He.
    + by apply list_elem_of_singleton in He.
  - rewrite report_connected. cbn [printed print]. apply last_snoc.
Qed.

Lemma report_all_queries_run_witness :
  executed (report None all_queries_answer)
  = [query1_top_movies; query2_movies_per_genre; query3_top_directors;
     query4_director_avg_rating; query5_movies_after_2001].
Proof.
  refine (proj1 (report_all_queries_run all_queries_answer _)).
  intros q. by eexists.
Defined.

(** X19. In every run of the report at most one error line is printed, the
    closing line is printed exactly when the connection was opened, and
    when the connection cannot be opened no query is sent and the error
    line is all that is printed. *)
Theorem report_error_and_close_lines (connect : option string)
    (read_sql_query : query → string + dataframe) :
  (length (filter (λ o, is_error_output o)
                  (printed (report connect read_sql_query))) ≤ 1)%nat
  ∧ (OutClosed ∈ printed (report connect read_sql_query) ↔ connect = None)
  ∧ (∀ e, connect = Some e →
          executed (report connect read_sql_query) = []
          ∧ printed (report connect read_sql_query) = [OutError e]).
Proof.
  destruct connect as [e|].
  - split_and!.
    + simpl. unfold filter. simpl. lia.
    + simpl. split; [|done]. intros H.
      by apply list_elem_of_singleton in H.
    + by intros e' [= <-].
  - destruct (report_printed read_sql_query) as (body & Hp & Hplain).
    split_and!.
    + assert (Hbody : filter (λ o, is_error_output o) body = []).
      { clear Hp. induction Hplain as [|o body Ho _ IH]; [done|].
        rewrite filter_cons, IH. by destruct o. }
      rewrite Hp. generalize (first_error read_sql_query queries.*2).
      intros fe. rewrite filter_cons_False by (simpl; tauto).
      rewrite filter_app, Hbody. destruct fe; cbn; repeat case_decide; simpl; done || lia.
    + split; [done|]. intros _. rewrite Hp.
      apply list_elem_of_further, elem_of_app. right.
      apply elem_of_app. right. apply list_elem_of_here.
    + by intros e.
Qed.

End ReporterMore.

(** ** The ranking queries *)

Module QueriesSpec.
Import Normalizer Queries Vocabulary ExtraVocabulary Examples.
Import NormalizerSpec NormalizerMore.

#[local] Instance rating_desc_total : Total rating_desc.
Proof.
  intros m1 m2. unfold rating_desc.
  destruct (mv_vote_average m1) as [r1|], (mv_vote_average m2) as [r2|];
    try tauto.
  destruct (Qc_le_total r1 r2); tauto.
Qed.

#[local] Instance rating_desc_trans : Transitive rating_desc.
Proof.
  intros m1 m2 m3. unfold rating_desc.
  destruct (mv_vote_average m1), (mv_vote_average m2), (mv_vote_average m3);
    try tauto.
  intros H1 H2. by eapply Qcanon.Qcle_trans.
Qed.

#[local] Instance count_desc_total : Total count_desc.
Proof. intros g1 g2. unfold count_desc. lia. Qed.

#[local] Instance count_desc_trans : Transitive count_desc.
Proof. intros g1 g2 g3. unfold count_desc. lia. Qed.

(** X20. The first query returns the title and rating of
    [min 10 (number of movies)] rows of the movies table, highest rating
    first with NULL ratings last, and no row it leaves out is rated higher
    than a row it returns. *)
Theorem query1_top_ten (movies : list movie_row) :
  ∃ rows rest,
    rows ++ rest ≡ₚ movies
    ∧ eval_query1 movies = (λ m, (mv_title m, mv_vote_average m)) <$> rows
    ∧ length rows = Nat.min 10 (length movies)
    ∧ StronglySorted rating_desc rows
    ∧ (∀ m m', m ∈ rows → m' ∈ rest → rating_desc m m').
Proof.
  pose proof (StronglySorted_merge_sort rating_desc movies) as Hs.
  pose proof (merge_sort_Permutation rating_desc movies) as Hp.
  rewrite <- (take_drop 10 (merge_sort rating_desc movies)) in Hs, Hp.
  exists (take 10 (merge_sort rating_desc movies)),
         (drop 10 (merge_sort rating_desc movies)).
  split_and!.
  - done.
  - done.
  - rewrite length_take.
    by rewrite (Permutation_length (merge_sort_Permutation rating_desc movies)).
  - by apply StronglySorted_app_1_l in Hs.
  - intros m m'. by apply StronglySorted_app_1_elem_of.
Qed.

(** *** Groups *)

Lemma bump_size name n groups :
  group_size n (bump name groups)
  = if bool_decide (n = name) then S (group_size n groups)
    else group_size n groups.
Proof.
  induction groups as [|[n' c] groups IH]; simpl.
  - repeat case_bool_decide; congruence.
  - repeat (case_bool_decide; simpl); subst; try congruence.
Qed.

Lemma bump_names name groups :
  (bump name groups).*1
  = if bool_decide (name ∈ groups.*1) then groups.*1 else groups.*1 ++ [name].
Proof.
  induction groups as [|[n c] groups IH].
  - rewrite bool_decide_eq_false_2; [reflexivity|]. apply not_elem_of_nil.
  - cbn [bump]. rewrite (fmap_cons fst (n, c)). cbn [fst].
    destruct (decide (n = name)) as [->|Hn].
    + rewrite (bool_decide_eq_true_2 (name = name)) by done.
      rewrite bool_decide_eq_true_2; [reflexivity|]. apply list_elem_of_here.
    + rewrite (bool_decide_eq_false_2 (n = name)) by done.
      rewrite fmap_cons, IH. cbn [fst].
      destruct (decide (name ∈ groups.*1)) as [Hin|Hin].
      * rewrite !bool_decide_eq_true_2; [reflexivity| |done].
        by apply list_elem_of_further.
      * rewrite !bool_decide_eq_false_2; [reflexivity| |done].
        rewrite not_elem_of_cons. split; [congruence|done].
Qed.

Lemma bump_NoDup name groups : NoDup groups.*1 → NoDup (bump name groups).*1.
Proof.
  intros Hnd. rewrite bump_names. case_bool_decide as Hin; [done|].
  apply NoDup_app. split_and!; [done| |apply NoDup_singleton].
  intros x Hx Hx'. apply list_elem_of_singleton in Hx'. by subst.
Qed.

Lemma bump_sum name groups :
  sum_list (bump name groups).*2 = S (sum_list groups.*2).
Proof.
  induction groups as [|[n c] groups IH]; [reflexivity|].
  cbn [bump]. destruct (decide (n = name)) as [->|Hn].
  - rewrite bool_decide_eq_true_2 by done. reflexivity.
  - rewrite bool_decide_eq_false_2 by done.
    rewrite !fmap_cons. cbn [sum_list snd]. rewrite IH. lia.
Qed.

Lemma group_count_snoc names name :
  group_count (names ++ [name]) = bump name (group_count names).
Proof. unfold group_count. by rewrite foldl_app. Qed.

Lemma occurrences_snoc n names name :
  occurrences n (names ++ [name])
  = if bool_decide (n = name) then S (occurrences n names)
    else occurrences n names.
Proof.
  unfold occurrences. rewrite filter_app, length_app.
  rewrite filter_cons, filter_nil.
  case_bool_decide; case_decide; simpl; try congruence; try lia.
  all: subst; done.
Qed.

Lemma group_count_spec names :
  NoDup (group_count names).*1
  ∧ (∀ n, n ∈ (group_count names).*1 ↔ n ∈ names)
  ∧ (∀ n, group_size n (group_count names) = occurrences n names)
  ∧ sum_list (group_count names).*2 = length names.
Proof.
  induction names as [|name names (IH1 & IH2 & IH3 & IH4)] using rev_ind.
  - split_and!; [apply NoDup_nil_2|done|done|done].
  - rewrite group_count_snoc. split_and!.
    + by apply bump_NoDup.
    + intros n. rewrite bump_names, elem_of_app, list_elem_of_singleton.
      destruct (decide (name ∈ (group_count names).*1)) as [Hin|Hin].
      * rewrite bool_decide_eq_true_2 by done.
        rewrite IH2. rewrite IH2 in Hin. split; [tauto|].
        intros [? | ->]; done.
      * rewrite bool_decide_eq_false_2 by done.
        by rewrite elem_of_app, list_elem_of_singleton, IH2.
    + intros n. by rewrite bump_size, occurrences_snoc, IH3.
    + rewrite bump_sum, IH4, length_app. simpl. lia.
Qed.

Lemma group_size_elem n c groups :
  NoDup groups.*1 → (n, c) ∈ groups ↔ n ∈ groups.*1 ∧ group_size n groups = c.
Proof.
  induction groups as [|[n' c'] groups IH]; intros Hnd.
  - split; [intros H; by apply elem_of_nil in H|].
    intros [H _]. by apply elem_of_nil in H.
  - rewrite fmap_cons in Hnd. apply NoDup_cons in Hnd as [Hfresh Hnd].
    specialize (IH Hnd).
    rewrite fmap_cons. cbn [fst group_size]. rewrite !elem_of_cons.
    destruct (decide (n' = n)) as [->|Hn].
    + rewrite bool_decide_eq_true_2 by done. split.
      * intros [Heq|Hin]; [split; [by left|congruence]|].
        exfalso. apply Hfresh. apply list_elem_of_fmap. by exists (n, c).
      * intros [_ ->]. by left.
    + rewrite bool_decide_eq_false_2 by done. rewrite IH. split.
      * intros [Heq|[? ?]]; [congruence|]. split; [by right|done].
      * intros [[?|?] ?]; [congruence|]. right. done.
Qed.

Lemma sum_list_perm (l k : list nat) : l ≡ₚ k → sum_list l = sum_list k.
Proof. induction 1; simpl; lia. Qed.

Lemma ranked_spec names :
  let res := merge_sort count_desc (group_count names) in
  NoDup res.*1
  ∧ (∀ n c, (n, c) ∈ res ↔ n ∈ names ∧ c = occurrences n names)
  ∧ sum_list res.*2 = length names
  ∧ StronglySorted count_desc res.
Proof.
  intros res.
  destruct (group_count_spec names) as (H1 & H2 & H3 & H4).
  pose proof (merge_sort_Permutation count_desc (group_count names)) as Hp.
  fold res in Hp.
  split_and!.
  - by rewrite Hp.
  - intros n c. rewrite Hp, (group_size_elem n c _ H1), H2, H3.
    split; intros [? ?]; done.
  - rewrite <- H4. apply sum_list_perm. by rewrite Hp.
  - apply StronglySorted_merge_sort; apply _.
Qed.

(** X21. The second query returns one row per genre name that occurs in
    the join, no name twice even when two genre ids share it, with the
    number of joined rows of that name, largest count first. *)
Theorem query2_counts_per_name (genres : list (Z * string))
    (movie_genres : list movie_genre_row) :
  NoDup (eval_query2 genres movie_genres).*1
  ∧ (∀ n c, (n, c) ∈ eval_query2 genres movie_genres
            ↔ n ∈ join_genres genres movie_genres
              ∧ c = occurrences n (join_genres genres movie_genres))
  ∧ StronglySorted count_desc (eval_query2 genres movie_genres).
Proof.
  destruct (ranked_spec (join_genres genres movie_genres))
    as (H1 & H2 & _ & H4).
  by split_and!.
Qed.


(** *** Joins on a key *)

Section Join.
Context {X : Type} (P : Z * string → X → Prop) `{∀ g x, Decision (P g x)}.

Lemma join_on_cons gs x xs :
  length (join_on P gs (x :: xs))
  = (length (filter (λ g, P g x) gs) + length (join_on P gs xs))%nat.
Proof.
  induction gs as [|g gs IH]; [done|].
  change (join_on P (g :: gs) (x :: xs))
    with (((if bool_decide (P g x) then [g.2] else [])
           ++ (x' ← xs; if bool_decide (P g x') then [g.2] else []))
          ++ join_on P gs (x :: xs)).
  change (join_on P (g :: gs) xs)
    with ((x' ← xs; if bool_decide (P g x') then [g.2] else [])
          ++ join_on P gs xs).
  rewrite !length_app, IH, filter_cons.
  destruct (decide (P g x)).
  - rewrite bool_decide_eq_true_2 by done. simpl. lia.
  - rewrite bool_decide_eq_false_2 by done. simpl. lia.
Qed.

Lemma join_on_nil gs : join_on P gs [] = [].
Proof. induction gs as [|g gs IH]; [done|]. exact IH. Qed.

Lemma join_on_length gs xs :
  (∀ x, x ∈ xs → length (filter (λ g, P g x) gs) = 1%nat) →
  length (join_on P gs xs) = length xs.
Proof.
  induction xs as [|x xs IH]; intros Hone.
  - by rewrite join_on_nil.
  - rewrite join_on_cons, Hone by apply list_elem_of_here.
    rewrite IH; [done|]. intros x' Hx'. apply Hone. by apply list_elem_of_further.
Qed.

End Join.

Lemma filter_key_absent (gs : list (Z * string)) k :
  k ∉ gs.*1 → filter (λ g, g.1 = k) gs = [].
Proof.
  induction gs as [|g gs IH]; intros Hk; [done|].
  rewrite fmap_cons in Hk. apply not_elem_of_cons in Hk as [Hne Hk].
  rewrite filter_cons_False by congruence. by apply IH.
Qed.

Lemma filter_key_unique (gs : list (Z * string)) k :
  NoDup gs.*1 → k ∈ gs.*1 → length (filter (λ g, g.1 = k) gs) = 1%nat.
Proof.
  induction gs as [|g gs IH]; intros Hnd Hk.
  - by apply elem_of_nil in Hk.
  - rewrite fmap_cons in Hnd, Hk. apply NoDup_cons in Hnd as [Hfresh Hnd].
    destruct (decide (g.1 = k)) as [Heq|Hne].
    + rewrite filter_cons_True by done. rewrite filter_key_absent; [done|].
      by rewrite <- Heq.
    + rewrite filter_cons_False by done. apply IH; [done|].
      apply elem_of_cons in Hk as [?|?]; [congruence|done].
Qed.

(** X22. On the tables of a successful transform the counts of the second
    query add up to the number of rows of the movie_genres table, which is
    the number of genre entries of all collected records: the genres of
    movies that were dropped from the movies table are counted too. *)
Theorem query2_counts_every_junction_row
    (parse_datetime : string → py_error + option date)
    (raw : list raw_movie) (t : tables) :
  transform parse_datetime raw = inr t →
  sum_list (eval_query2 (genres_df t) (movie_genres_df t)).*2
  = length (movie_genres_df t)
  ∧ length (movie_genres_df t)
    = sum_list ((λ row, length (genres row)) <$> raw).
Proof.
  intros Ht.
  destruct (transform_keys_NoDup _ _ _ Ht) as [Hnd _].
  pose proof Ht as Ht'.
  apply transform_inr in Ht' as (_ & Hg & Hmg & _).
  split.
  - destruct (ranked_spec (join_genres (genres_df t) (movie_genres_df t)))
      as (_ & _ & Hsum & _).
    unfold eval_query2. rewrite Hsum.
    apply (join_on_length (λ g mg, g.1 = mg_genre_id mg) (genres_df t)).
    intros mg Hin. apply filter_key_unique; [done|].
    rewrite Hg. apply movie_genres_refs. by rewrite <- Hmg.
  - rewrite Hmg, genres_pass_spec. simpl.
    clear. induction raw as [|row raw IH]; [done|].
    rewrite bind_cons, length_app, IH. simpl.
    unfold genre_rows. by rewrite length_fmap.
Qed.

Lemma query2_counts_every_junction_row_witness :
  sum_list (eval_query2 (genres_df sample_tables)
                        (movie_genres_df sample_tables)).*2 = 3%nat
  ∧ length (movies_df sample_tables) = 1%nat.
Proof.
  split; [|reflexivity].
  exact (proj1 (query2_counts_every_junction_row parse_iso
                  [two_directors; no_director] sample_tables eq_refl)).
Defined.



End QueriesSpec.

(** ** The loaded store *)

Module PipelineSpec.
Import Fetcher Normalizer Loader LoadVocabulary Pipeline Vocabulary Examples.
Import NormalizerSpec NormalizerMore LoaderSpec LoaderMore FetcherMore.






End PipelineSpec.
